(** * The upgrade helper of nextui-cli: resolution engine and report formatter

    A shallow embedding of [upgrade], [getUpgradeVersion],
    [getPackagePeerDep] and [outputDependencies] (helpers/upgrade.ts), and
    the properties of them that the specification states.

    Conventions of the embedding:
    - a JavaScript string is a [string]; [String.length] stands for
      [.length] (the strings at hand, package names, versions and colour
      escapes, are ASCII, where bytes and UTF-16 code units coincide);
    - the installed-dependency object, only ever read by key, is a
      [gmap string string] of the keys it owns; a read by a key it does not
      own falls through to what every plain object inherits (see
      [readDependency]); a peer-dependency object, which is iterated, is
      the list of its entries in iteration order;
    - [Logger.warn] and [outputBox] append to a [World]; a thrown exception
      or a rejected promise is [Throw];
    - candidate objects are mutated in place by the formatter and then
      returned by the engine: the formatter returns the list as it has left
      it, and the engine builds its result from that list. *)

From stdpp Require Import base option list strings gmap.
From Stdlib Require Import Ascii ZArith Lia.

Open Scope string_scope.
Open Scope list_scope.

(** ** JavaScript primitives *)

Module JS.

Fixpoint spaces (n : nat) : string :=
  match n with
  | O => ""
  | S k => String " "%char (spaces k)
  end.

(** [s.padEnd(n)] and [s.padStart(n)], padding with spaces. *)
Definition padEnd (s : string) (n : nat) : string :=
  s +:+ spaces (n - String.length s).

Definition padStart (s : string) (n : nat) : string :=
  spaces (n - String.length s) +:+ s.

(** [s.replace(c, '')] for a one-character pattern [c]: the first
    occurrence of [c] is dropped, the rest of [s] is kept. *)
Fixpoint replaceChar (c : Ascii.ascii) (s : string) : string :=
  match s with
  | EmptyString => EmptyString
  | String a rest =>
      if Ascii.eqb a c then rest else String a (replaceChar c rest)
  end.

(** [lines.join('\n')]. *)
Definition lineFeed : Ascii.ascii := Ascii.ascii_of_nat 10.

Definition newline : string := String lineFeed EmptyString.

Definition join (sep : string) (lines : list string) : string :=
  String.concat sep lines.

(** Number of occurrences of a character. *)
Fixpoint occurrences (c : Ascii.ascii) (s : string) : nat :=
  match s with
  | EmptyString => 0
  | String a rest => (if Ascii.eqb a c then 1 else 0) + occurrences c rest
  end.

(** Lines of a text: none in the empty text, otherwise one more than
    its line feeds. *)
Definition lineCount (s : string) : nat :=
  match s with
  | EmptyString => 0
  | _ => S (occurrences lineFeed s)
  end.

(** A value that is either returned or thrown. *)
Inductive Error : Type := Thrown (message : string).

Inductive Result (A : Type) : Type :=
| Ok (a : A)
| Throw (e : Error).

Arguments Ok {A} a.
Arguments Throw {A} e.

(** What [JSON.parse] hands back to the peer resolver, which reads it as a
    [Dependencies] object or nothing: a falsy value ([null]), or an object
    given by its entries. *)
Inductive JsonValue : Type :=
| JNull
| JObject (entries : list (string * string)).

End JS.

Import JS.

(** ** Data model *)

(** [Dependencies] read by key. *)
Abbreviation Dependencies := (gmap string string).

(** [Object.entries] of a [Dependencies] object that is iterated. *)
Abbreviation Entries := (list (string * string)).

Record UpgradeOption : Type := mkUpgradeOption {
  package : string;
  version : string;
  latestVersion : string;
  isLatest : bool;
  versionMode : string;
  peerDependencies : option Entries
}.

Record Upgrade : Type := mkUpgrade {
  isNextUIAll : bool;
  allDependencies : Dependencies;
  upgradeOptionList : list UpgradeOption
}.

Record VersionAndMode : Type := mkVersionAndMode {
  currentVersion : string;
  vmMode : string
}.

(** ** Effects *)

Record OutputBox : Type := mkOutputBox {
  boxColor : string;
  boxText : string;
  boxTitle : string
}.

Record World : Type := mkWorld {
  warnings : list string;
  boxes : list OutputBox
}.

Definition M (A : Type) : Type := World -> Result A * World.

Definition ret {A} (a : A) : M A := fun w => (Ok a, w).

Definition bind {A B} (m : M A) (k : A -> M B) : M B :=
  fun w =>
    match m w with
    | (Ok a, w') => k a w'
    | (Throw e, w') => (Throw e, w')
    end.

Definition liftR {A} (r : Result A) : M A := fun w => (r, w).

Notation "x <- m ;; k" := (bind m (fun x => k))
  (at level 100, m at next level, right associativity).
Notation "m ;;; k" := (bind m (fun _ => k))
  (at level 100, right associativity).

Definition Logger_warn (message : string) : M unit :=
  fun w => (Ok tt, mkWorld (warnings w ++ [message]) (boxes w)).

Definition outputBox (b : OutputBox) : M unit :=
  fun w => (Ok tt, mkWorld (warnings w) (boxes w ++ [b])).

(** ** Collaborators

    The modules the helper imports and whose code is not part of it: the
    constants, the store, the version helpers, the shell and chalk. *)

Class Collaborators : Type := {
  NEXT_UI : string;
  THEME_UI : string;
  store_latestVersion : string;
  compareVersions : string -> string -> Result Z;
  getVersionAndMode : Dependencies -> string -> VersionAndMode;
  getColorVersion : string -> string -> string;
  transformPeerVersion : string -> string;
  exec : string -> Result string;
  JSON_parse : string -> Result JsonValue;
  chalk_white : string -> string;
  chalk_greenBright : string -> string;
  chalk_blue : string -> string;
  chalk_yellow : string -> string
}.

(** ** The report formatter *)

Definition DEFAULT_SPACE : string := padEnd "" 7.

Record OptionMaxLen : Type := mkOptionMaxLen {
  len_latestVersion : nat;
  len_package : nat;
  len_version : nat
}.

(** The keys a candidate object owns. *)
Inductive Key : Type :=
| key_isLatest
| key_latestVersion
| key_package
| key_version
| key_versionMode
| key_peerDependencies.

Definition ownKeys (o : UpgradeOption) : list Key :=
  [key_isLatest; key_latestVersion; key_package; key_version; key_versionMode]
  ++ match peerDependencies o with
     | Some _ => [key_peerDependencies]
     | None => []
     end.

(** [optionMaxLenMap[key] = Math.max(optionMaxLenMap[key], upgradeOption[key].length)].
    For a key outside the three columns the map gets a NaN entry under
    that key, which nothing reads. *)
Definition recordLength (m : OptionMaxLen) (o : UpgradeOption) (k : Key)
  : OptionMaxLen :=
  match k with
  | key_latestVersion =>
      mkOptionMaxLen (Nat.max (len_latestVersion m) (String.length (latestVersion o)))
                     (len_package m) (len_version m)
  | key_package =>
      mkOptionMaxLen (len_latestVersion m)
                     (Nat.max (len_package m) (String.length (package o)))
                     (len_version m)
  | key_version =>
      mkOptionMaxLen (len_latestVersion m) (len_package m)
                     (Nat.max (len_version m) (String.length (version o)))
  | _ => m
  end.

Definition setVersion (o : UpgradeOption) (v : string) : UpgradeOption :=
  mkUpgradeOption (package o) v (latestVersion o) (isLatest o)
                  (versionMode o) (peerDependencies o).

(** [upgradeOption.version.replace('^', '')]. *)
Definition stripCaret (v : string) : string := replaceChar "^"%char v.

Definition normalizeVersion (o : UpgradeOption) : UpgradeOption :=
  setVersion o (stripCaret (version o)).

(** The body of the inner [for (const key in upgradeOption)] loop. *)
Definition visitKey (st : OptionMaxLen * UpgradeOption) (k : Key)
  : OptionMaxLen * UpgradeOption :=
  let '(m, o) := st in
  let m' := recordLength m o k in
  match k with
  | key_version => (m', normalizeVersion o)
  | _ => (m', o)
  end.

Definition visitOption (m : OptionMaxLen) (o : UpgradeOption)
  : OptionMaxLen * UpgradeOption :=
  fold_left visitKey (ownKeys o) (m, o).

(** The first loop: widths are recorded and versions rewritten in place. *)
Fixpoint measureOptions (m : OptionMaxLen) (l : list UpgradeOption)
  : OptionMaxLen * list UpgradeOption :=
  match l with
  | [] => (m, [])
  | o :: rest =>
      let '(m1, o') := visitOption m o in
      let '(m2, rest') := measureOptions m1 rest in
      (m2, o' :: rest')
  end.

(** One pass of the inner loop over all the keys of a candidate, in closed
    form (see [visitOption_eq]). *)
Definition widen (m : OptionMaxLen) (o : UpgradeOption) : OptionMaxLen :=
  mkOptionMaxLen
    (Nat.max (len_latestVersion m) (String.length (latestVersion o)))
    (Nat.max (len_package m) (String.length (package o)))
    (Nat.max (len_version m) (String.length (version o))).

(** A candidate is left out of the rows exactly when it is latest and the
    list is rendered as the peer section (see [outputRows_eq]). *)
Definition shown (peer : bool) (o : UpgradeOption) : bool :=
  negb (peer && isLatest o).

Section Formatter.
Context {env : Collaborators}.

Definition latestRow (m : OptionMaxLen) (o : UpgradeOption) : string :=
  "  "
  +:+ chalk_white
        (padEnd (package o +:+ "@" +:+ versionMode o +:+ latestVersion o)
                (len_package m + String.length DEFAULT_SPACE
                 + String.length DEFAULT_SPACE))
  +:+ padStart (chalk_greenBright "latest") (len_version m)
  +:+ DEFAULT_SPACE.

Definition staleRow (m : OptionMaxLen) (o : UpgradeOption) : string :=
  "  "
  +:+ chalk_white
        (padEnd (package o) (len_package m + String.length DEFAULT_SPACE)
         +:+ DEFAULT_SPACE
         +:+ padEnd (versionMode o +:+ version o) (len_version m)
         +:+ "  ->  " +:+ versionMode o +:+ latestVersion o)
  +:+ DEFAULT_SPACE.

Definition renderRow (m : OptionMaxLen) (o : UpgradeOption) : string :=
  if isLatest o then latestRow m o else staleRow m o.

(** The second loop: the [output] array. *)
Fixpoint outputRows (m : OptionMaxLen) (peer : bool) (l : list UpgradeOption)
  : list string :=
  match l with
  | [] => []
  | o :: rest =>
      if isLatest o then
        if peer then outputRows m peer rest
        else latestRow m o :: outputRows m peer rest
      else staleRow m o :: outputRows m peer rest
  end.

(** [getUpgradeVersion]: the text, and the list as the call leaves it. *)
Definition getUpgradeVersion (upgradeOptionList : list UpgradeOption)
           (peer : bool) : string * list UpgradeOption :=
  match upgradeOptionList with
  | [] => ("", [])
  | _ =>
      let '(optionMaxLenMap, mutated) :=
        measureOptions (mkOptionMaxLen 0 0 0) upgradeOptionList in
      (join newline (outputRows optionMaxLenMap peer mutated), mutated)
  end.

Definition outputDependencies (outputList peerDepList : list UpgradeOption)
  : M (list UpgradeOption * list UpgradeOption) :=
  let '(outputInfo, outputList') := getUpgradeVersion outputList false in
  let '(outputPeerDepInfo, peerDepList') := getUpgradeVersion peerDepList true in
  outputBox (mkOutputBox "blue" outputInfo (chalk_blue "Components")) ;;;
  outputBox (mkOutputBox "yellow" outputPeerDepInfo
                         (chalk_yellow "PeerDependencies")) ;;;
  ret (outputList', peerDepList').

End Formatter.

(** ** The peer resolver *)

Section PeerResolver.
Context {env : Collaborators}.

Definition missingPeerMessage (peerPackage : string) : string :=
  "Missing peerDependencies: " +:+ peerPackage
  +:+ ", check whether it is installed".

(** The property names that every plain object inherits from
    [Object.prototype]. *)
Definition inheritedProperties : list string :=
  ["constructor"; "toString"; "toLocaleString"; "valueOf"; "hasOwnProperty";
   "isPrototypeOf"; "propertyIsEnumerable"; "__proto__";
   "__defineGetter__"; "__defineSetter__";
   "__lookupGetter__"; "__lookupSetter__"].

(** What [allDependencies[peerPackage]] reads: the string the object owns
    under the key; for a key it does not own, the member of
    [Object.prototype] of that name when there is one, which is a function
    (an object for [__proto__]) and no string; and otherwise [undefined]. *)
Inductive PropertyRead : Type :=
| ReadUndefined
| ReadString (s : string)
| ReadInherited.

Definition readDependency (allDependencies : Dependencies)
           (peerPackage : string) : PropertyRead :=
  match allDependencies !! peerPackage with
  | Some s => ReadString s
  | None =>
      if existsb (String.eqb peerPackage) inheritedProperties
      then ReadInherited
      else ReadUndefined
  end.

(** A key that the object does not own and reads from what it inherits. *)
Definition inheritedOnly (allDependencies : Dependencies)
           (peerPackage : string) : bool :=
  match readDependency allDependencies peerPackage with
  | ReadInherited => true
  | _ => false
  end.

(** The version under a key: the string read, when it is one and is not
    empty. The reads that are falsy under the test [!currentVersion],
    [undefined] and the empty string, give none; nor does an inherited
    member, which is truthy but no version. *)
Definition installedVersion (allDependencies : Dependencies)
           (peerPackage : string) : option string :=
  match readDependency allDependencies peerPackage with
  | ReadString (String a s) => Some (String a s)
  | _ => None
  end.

(** What the call ends with when an inherited member, read as the
    installed version, is handed to the version helpers, which are written
    for strings. *)
Definition inheritedReadError : Error := Thrown "TypeError".

Definition peerCandidate (allDependencies : Dependencies)
           (peerPackage peerVersion current : string) (c : Z)
  : UpgradeOption :=
  let mode := vmMode (getVersionAndMode allDependencies peerPackage) in
  let formatPeerVersion := transformPeerVersion peerVersion in
  let latest := (0 <=? c)%Z in
  let formatPeerVersion :=
    if latest then transformPeerVersion current else formatPeerVersion in
  mkUpgradeOption peerPackage current
    (if latest then formatPeerVersion
     else getColorVersion current formatPeerVersion)
    latest mode None.

(** The body of the loop over [Object.entries(peerDependencies)]. *)
Definition visitPeer (allDependencies : Dependencies)
           (upgradeOptionList : list UpgradeOption) (entry : string * string)
  : M (list UpgradeOption) :=
  let '(peerPackage, peerVersion) := entry in
  if existsb (fun c => String.eqb (package c) peerPackage) upgradeOptionList
  then ret upgradeOptionList
  else
    match readDependency allDependencies peerPackage with
    | ReadUndefined | ReadString EmptyString =>
        Logger_warn (missingPeerMessage peerPackage) ;;;
        ret upgradeOptionList
    | ReadString current =>
        c <- liftR (compareVersions current (transformPeerVersion peerVersion)) ;;
        ret (upgradeOptionList
             ++ [peerCandidate allDependencies peerPackage peerVersion current c])%list
    | ReadInherited => liftR (Throw inheritedReadError)
    end.

Fixpoint visitPeers (allDependencies : Dependencies) (entries : Entries)
         (upgradeOptionList : list UpgradeOption) : M (list UpgradeOption) :=
  match entries with
  | [] => ret upgradeOptionList
  | entry :: rest =>
      upgradeOptionList' <- visitPeer allDependencies upgradeOptionList entry ;;
      visitPeers allDependencies rest upgradeOptionList'
  end.

(** From the emptiness test on, once the peer mapping is known. *)
Definition resolvePeers (allDependencies : Dependencies)
           (peerDependencies : Entries) : M (list UpgradeOption) :=
  match peerDependencies with
  | [] => ret []
  | _ => visitPeers allDependencies peerDependencies []
  end.

Definition npmShowCommand (packageName : string) : string :=
  "npm show " +:+ packageName +:+ " peerDependencies --json".

(** [JSON.parse(...) || {}]. *)
Definition entriesOrEmpty (v : JsonValue) : Entries :=
  match v with
  | JObject entries => entries
  | JNull => []
  end.

(** What runs after [await exec(...)], given how the command ended. *)
Definition getPackagePeerDep_resume (allDependencies : Dependencies)
           (output : Result string) : M (list UpgradeOption) :=
  text <- liftR output ;;
  parsed <- liftR (JSON_parse text) ;;
  resolvePeers allDependencies (entriesOrEmpty parsed).

(** [getPackagePeerDep], awaited by its caller. A mapping passed
    explicitly is an object, hence truthy, and no lookup is made. *)
Definition getPackagePeerDep (packageName : string)
           (allDependencies : Dependencies)
           (peerDependencies : option Entries) : M (list UpgradeOption) :=
  match peerDependencies with
  | Some entries => resolvePeers allDependencies entries
  | None =>
      getPackagePeerDep_resume allDependencies (exec (npmShowCommand packageName))
  end.

(** The peer mapping a call works on: the one passed, or else the parsed
    output of the lookup. *)
Definition peerMapping (packageName : string)
           (peerDependencies : option Entries) : Result Entries :=
  match peerDependencies with
  | Some entries => Ok entries
  | None =>
      match exec (npmShowCommand packageName) with
      | Ok text =>
          match JSON_parse text with
          | Ok parsed => Ok (entriesOrEmpty parsed)
          | Throw e => Throw e
          end
      | Throw e => Throw e
      end
  end.

(** The version range of the first entry under a name. *)
Fixpoint firstEntry (name : string) (entries : Entries) : option string :=
  match entries with
  | [] => None
  | (peerPackage, peerVersion) :: rest =>
      if String.eqb peerPackage name then Some peerVersion
      else firstEntry name rest
  end.

(** The test [!allDependencies[peerPackage]]: the read is falsy when it
    gives [undefined] or the empty string; an inherited member is truthy. *)
Definition missing (allDependencies : Dependencies) (peerPackage : string)
  : bool :=
  match readDependency allDependencies peerPackage with
  | ReadUndefined | ReadString EmptyString => true
  | ReadString _ | ReadInherited => false
  end.

(** A candidate made from the first entry under its name. *)
Definition builtFrom (allDependencies : Dependencies) (entries : Entries)
           (c : UpgradeOption) : Prop :=
  exists peerVersion current z,
    firstEntry (package c) entries = Some peerVersion
    /\ installedVersion allDependencies (package c) = Some current
    /\ compareVersions current (transformPeerVersion peerVersion) = Ok z
    /\ c = peerCandidate allDependencies (package c) peerVersion current z.

(** *** [Promise.all] over the primary candidates

    Each call runs up to its first [await] when it is made: a call with
    an explicit mapping has no [await] and runs to its end, a call
    without one issues its command and suspends. The suspended calls
    are resumed in the order they were made; the joined list follows the
    order of the calls. The promise of [Promise.all] is rejected with
    the rejection it sees first: that of a call which never suspended,
    if there is one. *)

Inductive Started : Type :=
| Settled (r : Result (list UpgradeOption))
| Awaiting (output : Result string).

Definition startPeerDep (allDependencies : Dependencies) (o : UpgradeOption)
           (w : World) : Started * World :=
  match peerDependencies o with
  | Some entries =>
      let '(r, w') := resolvePeers allDependencies entries w in
      (Settled r, w')
  | None => (Awaiting (exec (npmShowCommand (package o))), w)
  end.

Fixpoint startAll (allDependencies : Dependencies) (l : list UpgradeOption)
         (w : World) : list Started * World :=
  match l with
  | [] => ([], w)
  | o :: rest =>
      let '(s, w1) := startPeerDep allDependencies o w in
      let '(ss, w2) := startAll allDependencies rest w1 in
      (s :: ss, w2)
  end.

Fixpoint resumeAll (allDependencies : Dependencies) (l : list Started)
         (w : World) : list (bool * Result (list UpgradeOption)) * World :=
  match l with
  | [] => ([], w)
  | Settled r :: rest =>
      let '(rs, w') := resumeAll allDependencies rest w in
      ((false, r) :: rs, w')
  | Awaiting output :: rest =>
      let '(r, w1) := getPackagePeerDep_resume allDependencies output w in
      let '(rs, w2) := resumeAll allDependencies rest w1 in
      ((true, r) :: rs, w2)
  end.

(** The rejections among the calls that did ([true]) or did not
    ([false]) suspend, in the order of the calls. *)
Fixpoint rejections (suspended : bool)
         (l : list (bool * Result (list UpgradeOption))) : list Error :=
  match l with
  | [] => []
  | (b, Throw e) :: rest =>
      if Bool.eqb b suspended then e :: rejections suspended rest
      else rejections suspended rest
  | (_, Ok _) :: rest => rejections suspended rest
  end.

Fixpoint fulfilled (l : list (bool * Result (list UpgradeOption)))
  : list (list UpgradeOption) :=
  match l with
  | [] => []
  | (_, Ok v) :: rest => v :: fulfilled rest
  | (_, Throw _) :: rest => fulfilled rest
  end.

(** A started call that ends, whenever it is resumed, by returning [l]. *)
Definition resumesTo (allDependencies : Dependencies) (s : Started)
           (l : list UpgradeOption) : Prop :=
  match s with
  | Settled r => r = Ok l
  | Awaiting output =>
      forall w, fst (getPackagePeerDep_resume allDependencies output w) = Ok l
  end.

Definition promiseAllPeerDeps (allDependencies : Dependencies)
           (l : list UpgradeOption) : M (list (list UpgradeOption)) :=
  fun w =>
    let '(started, w1) := startAll allDependencies l w in
    let '(results, w2) := resumeAll allDependencies started w1 in
    match (rejections false results ++ rejections true results)%list with
    | e :: _ => (Throw e, w2)
    | [] => (Ok (fulfilled results), w2)
    end.

End PeerResolver.

(** ** The engine *)

Section Engine.
Context {env : Collaborators}.

(** [{...c, latestVersion: getColorVersion(c.version, c.latestVersion)}] *)
Definition transformUpgradeOption (c : UpgradeOption) : UpgradeOption :=
  mkUpgradeOption (package c) (version c)
                  (getColorVersion (version c) (latestVersion c))
                  (isLatest c) (versionMode c) (peerDependencies c).

Definition stale (c : UpgradeOption) : bool := negb (isLatest c).

Definition upgrade (options : Upgrade) : M (list UpgradeOption) :=
  let latest := store_latestVersion in
  if isNextUIAll options then
    let vm := getVersionAndMode (allDependencies options) NEXT_UI in
    let colorVersion := getColorVersion (currentVersion vm) latest in
    c <- liftR (compareVersions (currentVersion vm) latest) ;;
    let umbrellaIsLatest := (0 <=? c)%Z in
    nextUIPeerDepList <-
      getPackagePeerDep NEXT_UI (allDependencies options) None ;;
    nextUIThemePeerDepList <-
      getPackagePeerDep THEME_UI (allDependencies options) None ;;
    let outputList :=
      [mkUpgradeOption NEXT_UI (currentVersion vm) colorVersion
                       umbrellaIsLatest (vmMode vm) None] in
    let peerDepList := (nextUIPeerDepList ++ nextUIThemePeerDepList)%list in
    rendered <- outputDependencies outputList peerDepList ;;
    let '(outputList', peerDepList') := rendered in
    ret (if umbrellaIsLatest then []
         else (outputList' ++ List.filter stale peerDepList')%list)
  else
    let transformUpgradeOptionList :=
      map transformUpgradeOption (upgradeOptionList options) in
    upgradePeerList <-
      promiseAllPeerDeps (allDependencies options) (upgradeOptionList options) ;;
    let outputList := transformUpgradeOptionList in
    let peerDepList := List.concat upgradePeerList in
    rendered <- outputDependencies outputList peerDepList ;;
    let '(outputList', peerDepList') := rendered in
    ret (List.filter stale (outputList' ++ peerDepList')%list).

End Engine.

(** ** Sample collaborators

    Stand-ins for the imported modules, to run the helper on concrete
    inputs: a dotted-number comparison that throws on anything else, a
    registry that knows three packages, and colours spelt as tags. *)

Module Sample.

Definition isRangeChar (a : Ascii.ascii) : bool :=
  existsb (Ascii.eqb a) ["^"; "~"; ">"; "<"; "="]%char.

Fixpoint dropRange (s : string) : string :=
  match s with
  | EmptyString => EmptyString
  | String a rest => if isRangeChar a then dropRange rest else s
  end.

Definition rangeMode (s : string) : string :=
  match s with
  | String a _ =>
      if (Ascii.eqb a "^" || Ascii.eqb a "~")%bool
      then String a EmptyString else ""
  | EmptyString => ""
  end.

Definition digit (a : Ascii.ascii) : option N :=
  let n := Ascii.N_of_ascii a in
  if ((48 <=? n) && (n <=? 57))%N then Some (n - 48)%N else None.

Fixpoint segments (s : string) (cur : N) (seen : bool) : option (list N) :=
  match s with
  | EmptyString => if seen then Some [cur] else None
  | String a rest =>
      if Ascii.eqb a "."
      then (if seen then cons cur <$> segments rest 0%N false else None)
      else match digit a with
           | Some d => segments rest (10 * cur + d)%N true
           | None => None
           end
  end.

Fixpoint compareSegments (a b : list N) : Z :=
  match a, b with
  | x :: a', y :: b' =>
      if (x <? y)%N then (-1)%Z
      else if (y <? x)%N then 1%Z
      else compareSegments a' b'
  | _, _ => 0%Z
  end.

Definition pad (l : list N) (n : nat) : list N :=
  (l ++ repeat 0%N (n - length l))%list.

Definition compareDotted (a b : string) : Result Z :=
  match segments (dropRange a) 0%N false, segments (dropRange b) 0%N false with
  | Some x, Some y =>
      let n := Nat.max (length x) (length y) in
      Ok (compareSegments (pad x n) (pad y n))
  | _, _ => Throw (Thrown "Invalid argument not valid semver")
  end.

Definition splitVersionAndMode (deps : Dependencies) (name : string)
  : VersionAndMode :=
  let raw := default "" (deps !! name) in
  mkVersionAndMode (dropRange raw) (rangeMode raw).

Definition markDiff (current latest : string) : string :=
  if String.eqb (dropRange current) (dropRange latest) then latest
  else "<yellow>" +:+ latest +:+ "</yellow>".

Definition registry (cmd : string) : Result string :=
  if String.eqb cmd (npmShowCommand "@nextui-org/react")
  then Ok "{react:>=18,framer-motion:>=10.17.0,react:>=17}"
  else if String.eqb cmd (npmShowCommand "@nextui-org/theme")
  then Ok "{tailwindcss:>=3.4.0}"
  else if String.eqb cmd (npmShowCommand "@nextui-org/divider")
  then Ok "null"
  else if String.eqb cmd (npmShowCommand "@nextui-org/button")
  then Ok ""
  else Throw (Thrown "Command failed").

Definition parseKnown (text : string) : Result JsonValue :=
  if String.eqb text "{react:>=18,framer-motion:>=10.17.0,react:>=17}"
  then Ok (JObject [("react", ">=18"); ("framer-motion", ">=10.17.0");
                    ("react", ">=17")])
  else if String.eqb text "{tailwindcss:>=3.4.0}"
  then Ok (JObject [("tailwindcss", ">=3.4.0")])
  else if String.eqb text "{}" then Ok (JObject [])
  else if String.eqb text "null" then Ok JNull
  else Throw (Thrown "Unexpected end of JSON input").

Definition tag (name s : string) : string :=
  "<" +:+ name +:+ ">" +:+ s +:+ "</" +:+ name +:+ ">".

#[export] Instance collaborators : Collaborators := {|
  NEXT_UI := "@nextui-org/react";
  THEME_UI := "@nextui-org/theme";
  store_latestVersion := "2.4.0";
  compareVersions := compareDotted;
  getVersionAndMode := splitVersionAndMode;
  getColorVersion := markDiff;
  transformPeerVersion := dropRange;
  exec := registry;
  JSON_parse := parseKnown;
  chalk_white := tag "white";
  chalk_greenBright := tag "green";
  chalk_blue := tag "blue";
  chalk_yellow := tag "yellow"
|}.

Definition installed : Dependencies :=
  list_to_map [("@nextui-org/react", "^2.2.0"); ("react", "^18.2.0");
               ("framer-motion", "~10.16.0"); ("tailwindcss", "^3.3.0")].

Definition world0 : World := mkWorld [] [].

(** The peer mapping the registry holds for the umbrella package (the
    stand-in parser keeps an entry twice), and one passed explicitly. *)
Definition reactEntries : Entries :=
  [("react", ">=18"); ("framer-motion", ">=10.17.0"); ("react", ">=17")].

Definition explicitPeers : Entries :=
  [("react", ">=18"); ("left-pad", "1.0.0"); ("tailwindcss", ">=3.4.0")].

Definition reactPeer : UpgradeOption :=
  mkUpgradeOption "react" "^18.2.0" "18.2.0" true "^" None.

Definition framerPeer : UpgradeOption :=
  mkUpgradeOption "framer-motion" "~10.16.0" "<yellow>10.17.0</yellow>"
                  false "~" None.

Definition tailwindPeer : UpgradeOption :=
  mkUpgradeOption "tailwindcss" "^3.3.0" "<yellow>3.4.0</yellow>"
                  false "^" None.

Definition umbrella : UpgradeOption :=
  mkUpgradeOption "@nextui-org/react" "2.2.0" "<yellow>2.4.0</yellow>"
                  false "^" None.

Definition button : UpgradeOption :=
  mkUpgradeOption "@nextui-org/button" "^2.0.1" "2.0.2" false "^"
                  (Some explicitPeers).

Definition theme : UpgradeOption :=
  mkUpgradeOption "@nextui-org/theme" "2.1.0" "2.1.0" true "" None.

Definition leftPadWarning : string :=
  "Missing peerDependencies: left-pad, check whether it is installed".

End Sample.

#[global] Existing Instance Sample.collaborators.

(** ** The upgrade action (actions/upgrade-action.ts)

    The caller of the engine. What it reads of an installed component is
    its name, its package, its version, its mode and its peer mapping; the
    fields a component carries besides are read nowhere. The questions it
    asks are answered by the prompts, functions of the question and of the
    choices offered; what it logs, asks, runs and how it ends is recorded as
    events, next to the world of the helper. *)

Record Component : Type := mkComponent {
  componentName : string;
  componentPackage : string;
  componentVersion : string;
  componentVersionMode : string;
  componentPeerDependencies : option Entries
}.

(** An entry of [store.nextUIComponentsMap]. *)
Record StoreComponent : Type := mkStoreComponent {
  storeVersion : string;
  storePackage : string
}.

Record UpgradeActionOptions : Type := mkUpgradeActionOptions {
  packagePath : option string;
  all : option bool;
  major : option bool;
  minor : option bool;
  patch : option bool
}.

(** The choices of the three prompts. *)
Record AutocompleteChoice : Type := mkAutocompleteChoice {
  choiceDisabled : bool;
  choiceTitle : string;
  choiceValue : string
}.

Record SelectChoice : Type := mkSelectChoice {
  selectDescription : option string;
  selectTitle : string;
  selectValue : bool
}.

Record MultiselectChoice : Type := mkMultiselectChoice {
  multiDescription : string;
  multiTitle : string;
  multiValue : string
}.

Inductive Event : Type :=
| LoggedPrefix (level message : string)
| LoggedNewLine
| LoggedSuccess (message : string)
| Asked (question : string)
| Executed (command : string)
| Exited (code : Z).

Record ActionWorld : Type := mkActionWorld {
  helperWorld : World;
  events : list Event
}.

(** How a call of the action ends when nothing is thrown: it returns, or
    the process exits. *)
Inductive Ending : Type :=
| Returned
| ProcessExit (code : Z).

Definition AM (A : Type) : Type := ActionWorld -> Result A * ActionWorld.

Definition aret {A} (a : A) : AM A := fun aw => (Ok a, aw).

Definition abind {A B} (m : AM A) (k : A -> AM B) : AM B :=
  fun aw =>
    match m aw with
    | (Ok a, aw') => k a aw'
    | (Throw e, aw') => (Throw e, aw')
    end.

Notation "x <~ m ;; k" := (abind m (fun x => k))
  (at level 100, m at next level, right associativity).
Notation "m ~;; k" := (abind m (fun _ => k))
  (at level 100, right associativity).

Definition emit (e : Event) : AM unit :=
  fun aw => (Ok tt, mkActionWorld (helperWorld aw) (events aw ++ [e])).

Definition liftResult {A} (r : Result A) : AM A := fun aw => (r, aw).

(** A call into the helper, run on the world of the helper. *)
Definition liftHelper {A} (m : M A) : AM A :=
  fun aw =>
    let '(r, w') := m (helperWorld aw) in
    (r, mkActionWorld w' (events aw)).

Class ActionCollaborators : Type := {
  resolver : string -> string;
  getPackageInfo : string -> Dependencies * list Component;
  nextUIComponentsMap : gmap string StoreComponent;
  getLatestVersion : string -> Result string;
  getAutocompleteMultiselect : string -> list AutocompleteChoice -> list string;
  checkIllegalComponents : list string -> bool;
  getSelect : string -> list SelectChoice -> bool;
  getMultiselect : string -> list MultiselectChoice -> list string;
  detect : string;
  (** the [install] field of [getPackageManagerInfo(packageManager)] *)
  getPackageManagerInfo_install : string -> string;
  (** [s.replace(colorMatchRegex, '')] *)
  replaceColor : string -> string;
  chalk_gray : string -> string
}.

Section Action.
Context {env : Collaborators} {actionEnv : ActionCollaborators}.

(** [store.nextUIComponentsMap[component.name]?.version
     || (await getLatestVersion(component.package))]. A name that the map
    only inherits reads as a member without a [version], so that it goes
    the way of a name that the map does not hold. *)
Definition latestVersionOf (component : Component) : Result string :=
  match nextUIComponentsMap !! componentName component with
  | Some entry =>
      match storeVersion entry with
      | EmptyString => getLatestVersion (componentPackage component)
      | known => Ok known
      end
  | None => getLatestVersion (componentPackage component)
  end.

(** [{...component, isLatest: ..., latestVersion}] *)
Definition transformComponent (component : Component) (latest : string)
           (z : Z) : UpgradeOption :=
  mkUpgradeOption (componentPackage component) (componentVersion component)
                  latest (0 <=? z)%Z (componentVersionMode component)
                  (componentPeerDependencies component).

(** The loop over [currentComponents]. *)
Fixpoint transformAll (currentComponents : list Component)
         (transformComponents : list UpgradeOption)
  : Result (list UpgradeOption) :=
  match currentComponents with
  | [] => Ok transformComponents
  | component :: rest =>
      match latestVersionOf component with
      | Ok latest =>
          match compareVersions (componentVersion component) latest with
          | Ok z =>
              transformAll rest
                (transformComponents ++ [transformComponent component latest z])
          | Throw e => Throw e
          end
      | Throw e => Throw e
      end
  end.

(** The choice offered for a component when the user is asked which ones to
    upgrade. *)
Definition componentChoice (component : UpgradeOption) : AutocompleteChoice :=
  let isUpToDate := String.eqb (version component) (latestVersion component) in
  mkAutocompleteChoice
    isUpToDate
    (package component +:+ " "
     +:+ (if isUpToDate then chalk_greenBright "Already up to date"
          else chalk_gray (version component +:+ " ->") +:+ " "
               +:+ getColorVersion (version component)
                                   (latestVersion component)))
    (package component).

(** The components to upgrade, or nothing when the names given are refused. *)
Definition selectComponents (all : bool) (components : list string)
           (currentComponents : list Component)
           (transformComponents : list UpgradeOption)
  : AM (option (list string)) :=
  if all then aret (Some (map componentPackage currentComponents))
  else
    match components with
    | [] =>
        emit (Asked "Select the components to upgrade") ~;;
        aret (Some (getAutocompleteMultiselect
                      "Select the components to upgrade"
                      (map componentChoice transformComponents)))
    | _ =>
        if checkIllegalComponents components then aret (Some components)
        else aret None
    end.

(** A name of the store stands for its package, any other string for
    itself; so does a name that the map only inherits, whose member has no
    [package]. *)
Definition toPackage (c : string) : string :=
  match nextUIComponentsMap !! c with
  | Some entry =>
      match storePackage entry with
      | EmptyString => c
      | p => p
      end
  | None => c
  end.

(** [transformComponents.filter((c) => components.includes(c.package))] *)
Definition chosenUpgradeOptions (components : list string)
           (transformComponents : list UpgradeOption) : list UpgradeOption :=
  List.filter (fun c => existsb (String.eqb (package c)) components)
              transformComponents.

Definition proceedChoices : list SelectChoice :=
  [mkSelectChoice None "Yes" true;
   mkSelectChoice
     (Some "Turn to choose whether need to ignore some package upgrade")
     "No" false].

Definition ignoreChoices : list SelectChoice :=
  [mkSelectChoice (Some "Turn to choose components to ignore") "Yes" true;
   mkSelectChoice (Some "Upgrade exit") "No" false].

Definition ignoreChoice (c : UpgradeOption) : MultiselectChoice :=
  mkMultiselectChoice
    (version c +:+ " -> " +:+ getColorVersion (version c) (latestVersion c))
    (package c) (package c).

(** [result.reduce((acc, component, index) => ..., '')], from [index] on. *)
Fixpoint reduceInstall (acc : string) (index : nat)
         (result : list UpgradeOption) : string :=
  match result with
  | [] => acc
  | component :: rest =>
      reduceInstall
        (acc +:+ (if Nat.eqb index 0 then "" else " ")
         +:+ package component +:+ "@"
         +:+ replaceColor (latestVersion component))
        (S index) rest
  end.

Definition notIgnored (ignoreList : list string) (r : UpgradeOption) : bool :=
  negb (existsb (fun ignore => String.eqb (package r) ignore) ignoreList).

(** The list of the packages to ignore, asked for when the user does not
    want to proceed. *)
Definition askIgnoreList (result : list UpgradeOption) (isExecute : bool)
  : AM (list string) :=
  if isExecute then aret []
  else
    emit (Asked "Do you want to ignore some package to upgrade?") ~;;
    if getSelect "Do you want to ignore some package to upgrade?" ignoreChoices
    then
      emit (Asked "Which components do you want to ignore?") ~;;
      aret (getMultiselect "Which components do you want to ignore?"
                           (map ignoreChoice result))
    else aret [].

(** The body of [if (result.length)]. *)
Definition installResult (result : list UpgradeOption) : AM unit :=
  emit (Asked "Would you like to proceed with the upgrade?") ~;;
  let isExecute :=
    getSelect "Would you like to proceed with the upgrade?" proceedChoices in
  let packageManager := detect in
  let install := getPackageManagerInfo_install packageManager in
  ignoreList <~ askIgnoreList result isExecute ;;
  let result := List.filter (notIgnored ignoreList) result in
  let command :=
    packageManager +:+ " " +:+ install +:+ " " +:+ reduceInstall "" 0 result in
  emit (Executed command) ~;;
  liftResult (exec command) ~;;
  aret tt.

(** From the result of the engine to the end of the action. *)
Definition concludeUpgrade (result : list UpgradeOption) : AM Ending :=
  (match result with
   | [] => aret tt
   | _ => installResult result
   end) ~;;
  emit LoggedNewLine ~;;
  emit (LoggedSuccess "✅ Upgrade complete. All components are up to date.") ~;;
  emit (Exited 0) ~;;
  aret (ProcessExit 0).

Definition upgradeAction (components : list string)
           (options : UpgradeActionOptions) : AM Ending :=
  let all := default false (all options) in
  let packagePath :=
    default (resolver "package.json") (packagePath options) in
  let '(allDependencies, currentComponents) := getPackageInfo packagePath in
  let isNextUIAll := negb (missing allDependencies NEXT_UI) in
  transformComponents <~ liftResult (transformAll currentComponents []) ;;
  match transformComponents, isNextUIAll with
  | [], false =>
      emit (LoggedPrefix "error"
              ("No NextUI components detected in your package.json at: "
               +:+ packagePath)) ~;;
      aret Returned
  | _, _ =>
      selected <~ selectComponents all components currentComponents
                                   transformComponents ;;
      match selected with
      | None => aret Returned
      | Some components =>
          let components := map toPackage components in
          let upgradeOptionList :=
            chosenUpgradeOptions components transformComponents in
          result <~ liftHelper
                      (upgrade (mkUpgrade isNextUIAll allDependencies
                                          upgradeOptionList)) ;;
          concludeUpgrade result
      end
  end.

End Action.

(** ** Sample collaborators of the action

    A project with one component, or with the umbrella package, or with
    nothing of NextUI, by the path of its manifest; a user who answers no
    to every question; a shell that runs the install command. *)

Module SampleAction.

Fixpoint dropTags (inTag : bool) (s : string) : string :=
  match s with
  | EmptyString => EmptyString
  | String a rest =>
      if Ascii.eqb a "<" then dropTags true rest
      else if inTag then dropTags (negb (Ascii.eqb a ">")) rest
      else String a (dropTags false rest)
  end.

Definition shell (cmd : string) : Result string :=
  if String.prefix "pnpm add" cmd then Ok "" else Sample.registry cmd.

Definition collaborators : Collaborators := {|
  NEXT_UI := "@nextui-org/react";
  THEME_UI := "@nextui-org/theme";
  store_latestVersion := "2.4.0";
  compareVersions := Sample.compareDotted;
  getVersionAndMode := Sample.splitVersionAndMode;
  getColorVersion := Sample.markDiff;
  transformPeerVersion := Sample.dropRange;
  exec := shell;
  JSON_parse := Sample.parseKnown;
  chalk_white := Sample.tag "white";
  chalk_greenBright := Sample.tag "green";
  chalk_blue := Sample.tag "blue";
  chalk_yellow := Sample.tag "yellow"
|}.

Definition buttonComponent : Component :=
  mkComponent "button" "@nextui-org/button" "^2.0.1" "^"
              (Some Sample.explicitPeers).

Definition componentProject : Dependencies :=
  list_to_map [("@nextui-org/button", "^2.0.1"); ("react", "^18.2.0");
               ("tailwindcss", "^3.3.0")].

Definition umbrellaProject : Dependencies :=
  list_to_map [("@nextui-org/react", "2.4.0"); ("react", "^18.2.0");
               ("framer-motion", "~10.16.0"); ("tailwindcss", "^3.3.0")].

Definition packageInfo (path : string) : Dependencies * list Component :=
  if String.eqb path "empty/package.json" then (∅, [])
  else if String.eqb path "umbrella/package.json" then (umbrellaProject, [])
  else (componentProject, [buttonComponent]).

Definition actionCollaborators : ActionCollaborators := {|
  resolver := fun file => "./" +:+ file;
  getPackageInfo := packageInfo;
  nextUIComponentsMap :=
    {[ "button" := mkStoreComponent "2.0.2" "@nextui-org/button" ]};
  getLatestVersion := fun _ => Throw (Thrown "Request failed");
  getAutocompleteMultiselect := fun _ _ => ["button"];
  checkIllegalComponents :=
    forallb (fun c => String.eqb c "button");
  getSelect := fun _ _ => false;
  getMultiselect := fun _ _ => [];
  detect := "pnpm";
  getPackageManagerInfo_install := fun _ => "add";
  replaceColor := dropTags false;
  chalk_gray := Sample.tag "gray"
|}.

Definition start : ActionWorld := mkActionWorld Sample.world0 [].

Definition noOptions : UpgradeActionOptions :=
  mkUpgradeActionOptions None None None None None.

Definition atPath (path : string) : UpgradeActionOptions :=
  mkUpgradeActionOptions (Some path) None None None None.

End SampleAction.

(** ** Notions the further properties are stated with *)

(** The names of a list, each kept at its first occurrence only. *)
Fixpoint keepFirst (names : list string) : list string :=
  match names with
  | [] => []
  | n :: rest =>
      n :: List.filter (fun m => negb (String.eqb m n)) (keepFirst rest)
  end.

(** A name whose read in the installed dependencies is truthy, and a
    name that no candidate of a list carries. *)
Definition installedName (deps : Dependencies) (p : string) : bool :=
  negb (missing deps p).

Definition unseen (acc : list UpgradeOption) (n : string) : bool :=
  negb (existsb (String.eqb n) (map package acc)).

(** A warning about some package that is not installed. *)
Definition missingPeerWarning (deps : Dependencies) (message : string) : Prop :=
  exists p, missing deps p = true /\ message = missingPeerMessage p.

(** A started call that ends, whenever it is resumed, with the outcome
    [r], a list or an error. *)
Definition resumesAs {env : Collaborators} (deps : Dependencies)
           (s : Started) (r : Result (list UpgradeOption)) : Prop :=
  match s with
  | Settled r' => r' = r
  | Awaiting output =>
      forall w, fst (getPackagePeerDep_resume deps output w) = r
  end.

(** The outcome of the peer resolver for a primary candidate. *)
Definition peerOutcome {env : Collaborators} (deps : Dependencies)
           (w0 : World) (o : UpgradeOption) : Result (list UpgradeOption) :=
  fst (getPackagePeerDep (package o) deps (peerDependencies o) w0).

(** The two boxes of a report. *)
Definition componentsBox {env : Collaborators} (text : string) : OutputBox :=
  mkOutputBox "blue" text (chalk_blue "Components").

Definition peerDependenciesBox {env : Collaborators} (text : string)
  : OutputBox :=
  mkOutputBox "yellow" text (chalk_yellow "PeerDependencies").

(** What the install command says of a candidate, the command over the
    candidates it installs, and the events the action ends with. *)
Definition installItem {actionEnv : ActionCollaborators} (c : UpgradeOption)
  : string :=
  package c +:+ "@" +:+ replaceColor (latestVersion c).

Definition installCommand {actionEnv : ActionCollaborators}
           (kept : list UpgradeOption) : string :=
  detect +:+ " " +:+ getPackageManagerInfo_install detect +:+ " "
  +:+ join " " (map installItem kept).

Definition farewell : list Event :=
  [LoggedNewLine;
   LoggedSuccess "✅ Upgrade complete. All components are up to date.";
   Exited 0].

Definition isQuestion (e : Event) : Prop :=
  match e with
  | Asked _ => True
  | _ => False
  end.

(** The packages the user has chosen to ignore, when asked. *)
Definition ignoredWhenAsked {env : Collaborators}
           {actionEnv : ActionCollaborators} (result : list UpgradeOption)
  : list string :=
  getMultiselect "Which components do you want to ignore?"
                 (map ignoreChoice result).

(** The part of a stale row in front of its arrow. *)
Definition staleRowLead (m : OptionMaxLen) (o : UpgradeOption) : string :=
  padEnd (package o) (len_package m + String.length DEFAULT_SPACE)
  +:+ DEFAULT_SPACE
  +:+ padEnd (versionMode o +:+ version o) (len_version m).

(** * Properties *)

(** ** Dropping the first occurrence of a character *)

Section ReplaceChar.
Variable c : Ascii.ascii.

Lemma replaceChar_absent (s : string) :
  occurrences c s = 0 -> replaceChar c s = s.
Proof.
  induction s as [|a s IH]; simpl; [reflexivity|].
  destruct (Ascii.eqb a c); [discriminate|].
  intros Hs. f_equal. apply IH. exact Hs.
Qed.

Lemma replaceChar_first (a b : string) :
  occurrences c a = 0 ->
  replaceChar c (a +:+ String c b) = a +:+ b.
Proof.
  induction a as [|x a IH]; simpl.
  - intros _. rewrite Ascii.eqb_refl. reflexivity.
  - destruct (Ascii.eqb x c); [discriminate|].
    intros Ha. rewrite IH by exact Ha. reflexivity.
Qed.

Lemma replaceChar_split (s : string) :
  0 < occurrences c s ->
  exists a b, s = a +:+ String c b /\ occurrences c a = 0.
Proof.
  induction s as [|x s IH]; simpl; [lia|].
  destruct (Ascii.eqb x c) eqn:E.
  - intros _. apply Ascii.eqb_eq in E. subst x.
    exists EmptyString, s. split; reflexivity.
  - intros Hs. destruct (IH Hs) as (a & b & -> & Ha).
    exists (String x a), b. split; [reflexivity|].
    simpl. rewrite E. exact Ha.
Qed.

Lemma occurrences_replaceChar (s : string) :
  occurrences c (replaceChar c s) = occurrences c s - 1.
Proof.
  induction s as [|x s IH]; simpl; [reflexivity|].
  destruct (Ascii.eqb x c) eqn:E; simpl.
  - lia.
  - rewrite E. simpl. exact IH.
Qed.

Lemma occurrences_le_length (s : string) :
  occurrences c s <= String.length s.
Proof.
  induction s as [|x s IH]; simpl; [lia|].
  destruct (Ascii.eqb x c); lia.
Qed.

Lemma length_replaceChar (s : string) :
  String.length (replaceChar c s)
  = String.length s - (if occurrences c s is 0 then 0 else 1).
Proof.
  induction s as [|x s IH]; simpl; [reflexivity|].
  destruct (Ascii.eqb x c) eqn:E; simpl; [lia|].
  rewrite IH. pose proof (occurrences_le_length s).
  destruct (occurrences c s); lia.
Qed.

Lemma replaceChar_idempotent (s : string) :
  occurrences c s <= 1 ->
  replaceChar c (replaceChar c s) = replaceChar c s.
Proof.
  intros Hs. apply replaceChar_absent.
  rewrite occurrences_replaceChar. lia.
Qed.

End ReplaceChar.

(** ** The first loop of the formatter *)

Lemma visitOption_eq (m : OptionMaxLen) (o : UpgradeOption) :
  visitOption m o = (widen m o, normalizeVersion o).
Proof.
  unfold visitOption, ownKeys.
  destruct (peerDependencies o); reflexivity.
Qed.

Lemma measureOptions_list (l : list UpgradeOption) (m : OptionMaxLen) :
  snd (measureOptions m l) = map normalizeVersion l.
Proof.
  revert m. induction l as [|o l IH]; intros m; simpl; [reflexivity|].
  rewrite visitOption_eq.
  specialize (IH (widen m o)).
  destruct (measureOptions (widen m o) l) as [m2 rest]. simpl in *.
  now rewrite IH.
Qed.

Lemma measureOptions_version (l : list UpgradeOption) (m : OptionMaxLen) :
  len_version (fst (measureOptions m l))
  = Nat.max (len_version m)
            (max_list (map (fun o => String.length (version o)) l)).
Proof.
  revert m. induction l as [|o l IH]; intros m; simpl; [lia|].
  rewrite visitOption_eq.
  specialize (IH (widen m o)).
  destruct (measureOptions (widen m o) l) as [m2 rest]. simpl in *.
  rewrite IH. lia.
Qed.

Lemma max_list_bound (l : list nat) (n : nat) : In n l -> n <= max_list l.
Proof.
  induction l as [|x l IH]; simpl; [tauto|].
  intros [->|Hn]; [lia|]. specialize (IH Hn). lia.
Qed.

Lemma isLatest_normalizeVersion (o : UpgradeOption) :
  isLatest (normalizeVersion o) = isLatest o.
Proof. reflexivity. Qed.

Section FormatterProperties.
Context {env : Collaborators}.

Lemma outputRows_eq (m : OptionMaxLen) (peer : bool) (l : list UpgradeOption) :
  outputRows m peer l = map (renderRow m) (List.filter (shown peer) l).
Proof.
  induction l as [|o l IH]; simpl; [reflexivity|].
  unfold shown at 1, renderRow at 1.
  destruct (isLatest o) eqn:E, peer; simpl; rewrite ?E, IH; reflexivity.
Qed.

Lemma getUpgradeVersion_eq (l : list UpgradeOption) (peer : bool) :
  getUpgradeVersion l peer
  = (join newline
       (outputRows (fst (measureOptions (mkOptionMaxLen 0 0 0) l)) peer
                   (map normalizeVersion l)),
     map normalizeVersion l).
Proof.
  destruct l as [|o l]; [reflexivity|].
  unfold getUpgradeVersion.
  rewrite <- (measureOptions_list (o :: l) (mkOptionMaxLen 0 0 0)).
  destruct (measureOptions (mkOptionMaxLen 0 0 0) (o :: l)); reflexivity.
Qed.

Lemma filter_length_split {A} (f : A -> bool) (l : list A) :
  length (List.filter (fun x => negb (f x)) l)
  = length l - length (List.filter f l).
Proof.
  induction l as [|x l IH]; simpl; [reflexivity|].
  pose proof (List.filter_length_le f l).
  destruct (f x); simpl; lia.
Qed.

End FormatterProperties.

(** ** Joined lines *)

Lemma occurrences_app (c : Ascii.ascii) (a b : string) :
  occurrences c (a +:+ b) = occurrences c a + occurrences c b.
Proof.
  induction a as [|x a IH]; simpl; [reflexivity|].
  rewrite IH. lia.
Qed.

Lemma join_cons_nonempty (x : string) (rows : list string) :
  x <> "" -> join newline (x :: rows) <> "".
Proof.
  intros Hx. destruct x as [|a x]; [congruence|].
  destruct rows; simpl; discriminate.
Qed.

Lemma lineCount_join (rows : list string) :
  Forall (fun r => r <> "" /\ occurrences lineFeed r = 0) rows ->
  lineCount (join newline rows) = length rows.
Proof.
  induction 1 as [|x rows [Hx Hnl] Hrows IH]; [reflexivity|].
  destruct rows as [|y rows].
  - simpl. destruct x; [congruence|]. unfold lineCount. now rewrite Hnl.
  - pose proof (join_cons_nonempty y rows) as Hne.
    apply Forall_cons_1 in Hrows as [[Hy _] _]. specialize (Hne Hy).
    change (join newline (x :: y :: rows))
      with (x +:+ newline +:+ join newline (y :: rows)).
    destruct x as [|a x]; [congruence|].
    unfold lineCount at 1.
    change (String a x +:+ newline +:+ join newline (y :: rows))
      with (String a (x +:+ newline +:+ join newline (y :: rows))).
    cbv iota.
    change (String a (x +:+ newline +:+ join newline (y :: rows)))
      with (String a x +:+ newline +:+ join newline (y :: rows)).
    rewrite !occurrences_app, Hnl.
    unfold lineCount in IH.
    destruct (join newline (y :: rows)) eqn:E; [congruence|].
    change (occurrences lineFeed newline) with 1.
    simpl length in *. lia.
Qed.

(** ** The rewrite of a candidate's version *)

(** C6, as the specification states it, fails on a tilde: the rewrite
    returns a tilde-prefixed version as it is, the tilde is not removed. *)
Lemma stripCaret_keeps_tilde :
  stripCaret "~1.2.3" = "~1.2.3" /\ stripCaret "~1.2.3" <> "1.2.3".
Proof. split; [reflexivity | discriminate]. Qed.

(** C6, amended. On every version string that holds at most one caret (any
    version with a single range prefix is one), rewriting twice is the same
    as rewriting once; a leading caret is removed, and a leading tilde is
    kept, the rewrite going on behind it. *)
Theorem stripCaret_idempotent (v : string) :
  occurrences "^" v <= 1 ->
  stripCaret (stripCaret v) = stripCaret v
  /\ (forall rest, v = String "^" rest -> stripCaret v = rest)
  /\ (forall rest, v = String "~" rest ->
      stripCaret v = String "~" (stripCaret rest)).
Proof.
  intros Hv. split; [|split].
  - apply replaceChar_idempotent. exact Hv.
  - intros rest ->. reflexivity.
  - intros rest ->. reflexivity.
Qed.

Lemma stripCaret_idempotent_witness :
  stripCaret (stripCaret "^18.2.0") = stripCaret "^18.2.0"
  /\ (forall rest, "^18.2.0" = String "^" rest -> stripCaret "^18.2.0" = rest)
  /\ (forall rest, "^18.2.0" = String "~" rest ->
      stripCaret "^18.2.0" = String "~" (stripCaret rest)).
Proof. apply (stripCaret_idempotent "^18.2.0"). vm_compute. lia. Defined.

Section FormatterClaims.
Context {env : Collaborators}.

Lemma renderRow_nonempty (m : OptionMaxLen) (o : UpgradeOption) :
  renderRow m o <> "".
Proof. unfold renderRow, latestRow, staleRow. destruct (isLatest o); discriminate. Qed.

Lemma staleRow_in_outputRows (m : OptionMaxLen) (peer : bool)
      (l : list UpgradeOption) (o : UpgradeOption) :
  In o l -> isLatest o = false -> In (staleRow m o) (outputRows m peer l).
Proof.
  intros Ho Hstale. rewrite outputRows_eq.
  replace (staleRow m o) with (renderRow m o)
    by (unfold renderRow; now rewrite Hstale).
  apply in_map, filter_In. split; [exact Ho|].
  unfold shown. rewrite Hstale. now destruct peer.
Qed.

(** C9, amended. While rendering, the version of every candidate of the
    list is rewritten in place, and the rewrite drops the first caret of
    the version, wherever it stands, and nothing else. A version made of a
    tilde and a remainder without a caret is therefore left as it is, and
    the row of such a candidate that is not latest and whose mode is a tilde
    shows the two tildes in a row. *)
Theorem stripCaret_first_caret_only :
  (forall v,
      (occurrences "^" v = 0 /\ stripCaret v = v)
      \/ (exists a b, v = a +:+ String "^" b
                      /\ occurrences "^" a = 0
                      /\ stripCaret v = a +:+ b))
  /\ (forall l peer,
         Forall2 (fun o o' => version o' = stripCaret (version o))
                 l (snd (getUpgradeVersion l peer)))
  /\ (forall l peer o rest,
         In o l ->
         version o = String "~" rest ->
         occurrences "^" rest = 0 ->
         versionMode o = "~" ->
         isLatest o = false ->
         let m := fst (measureOptions (mkOptionMaxLen 0 0 0) l) in
         In o (snd (getUpgradeVersion l peer))
         /\ exists rows,
             fst (getUpgradeVersion l peer) = join newline rows
             /\ In (staleRow m o) rows
             /\ staleRow m o
                = "  "
                  +:+ chalk_white
                        (padEnd (package o)
                                (len_package m + String.length DEFAULT_SPACE)
                         +:+ DEFAULT_SPACE
                         +:+ padEnd ("~~" +:+ rest) (len_version m)
                         +:+ "  ->  " +:+ "~" +:+ latestVersion o)
                  +:+ DEFAULT_SPACE).
Proof.
  split; [|split].
  - intros v. destruct (occurrences "^" v) eqn:E.
    + left. split; [reflexivity|]. now apply replaceChar_absent.
    + right. destruct (replaceChar_split "^" v) as (a & b & -> & Ha); [lia|].
      exists a, b. split; [reflexivity|]. split; [exact Ha|].
      now apply replaceChar_first.
  - intros l peer. rewrite getUpgradeVersion_eq. cbn [snd].
    induction l as [|o l IH]; constructor; [reflexivity | exact IH].
  - intros l peer o rest Ho Hv Hrest Hmode Hstale m.
    assert (Hsame : normalizeVersion o = o).
    { unfold normalizeVersion, setVersion, stripCaret.
      rewrite replaceChar_absent.
      - now destruct o.
      - rewrite Hv. simpl. exact Hrest. }
    rewrite getUpgradeVersion_eq. simpl fst. simpl snd.
    assert (Hin : In o (map normalizeVersion l)).
    { rewrite <- Hsame. now apply in_map. }
    split; [exact Hin|].
    eexists. split; [reflexivity|]. split.
    + now apply staleRow_in_outputRows.
    + unfold staleRow. rewrite Hmode, Hv. reflexivity.
Qed.

(** C10. The version column is as wide as the longest version string
    handed to the renderer: each length is taken before the caret of that
    candidate is dropped. When every version of that greatest length holds
    a caret, the width is greater than the length of each version as
    rendered. *)
Theorem version_width_before_strip (l : list UpgradeOption) (peer : bool) :
  let m := fst (measureOptions (mkOptionMaxLen 0 0 0) l) in
  getUpgradeVersion l peer
  = (join newline (outputRows m peer (map normalizeVersion l)),
     map normalizeVersion l)
  /\ len_version m = max_list (map (fun o => String.length (version o)) l)
  /\ ((forall o, In o l ->
                 String.length (version o) = len_version m ->
                 0 < occurrences "^" (version o)) ->
      forall o', In o' (snd (getUpgradeVersion l peer)) ->
                 String.length (version o') < len_version m).
Proof.
  intros m.
  assert (Hm : len_version m
               = max_list (map (fun o => String.length (version o)) l)).
  { unfold m. rewrite measureOptions_version. simpl. lia. }
  split; [apply getUpgradeVersion_eq|]. split; [exact Hm|].
  intros Hcaret o'. rewrite getUpgradeVersion_eq. simpl snd.
  intros (o & <- & Ho)%in_map_iff.
  assert (Hle : String.length (version o) <= len_version m).
  { rewrite Hm. apply max_list_bound.
    apply (in_map (fun o => String.length (version o))), Ho. }
  simpl. unfold stripCaret. rewrite length_replaceChar.
  specialize (Hcaret o Ho).
  destruct (occurrences "^" (version o)) eqn:E; [|].
  - destruct (Nat.eq_dec (String.length (version o)) (len_version m)) as [Heq|Hne].
    + specialize (Hcaret Heq). lia.
    + lia.
  - pose proof (occurrences_le_length "^" (version o)). lia.
Qed.

(** C8. An empty list renders as the empty string. Any list renders as its
    rows joined by line feeds, one row for each candidate but those that
    are latest while the list is rendered as the peer section: their
    number is the length of the list, less the latest candidates in the
    peer section, and it is the number of lines of the text when no row
    holds a line feed. *)
Theorem getUpgradeVersion_lines (l : list UpgradeOption) (peer : bool) :
  let m := fst (measureOptions (mkOptionMaxLen 0 0 0) l) in
  let kept := List.filter (shown peer) (snd (getUpgradeVersion l peer)) in
  let rows := map (renderRow m) kept in
  fst (getUpgradeVersion [] peer) = ""
  /\ fst (getUpgradeVersion l peer) = join newline rows
  /\ length rows
     = length l - (if peer then length (List.filter isLatest l) else 0)
  /\ List.Forall (fun o => peer && isLatest o = false) kept
  /\ (List.Forall (fun r => occurrences lineFeed r = 0) rows ->
      lineCount (fst (getUpgradeVersion l peer)) = length rows).
Proof.
  intros m kept rows. subst rows kept m.
  split; [reflexivity|].
  rewrite getUpgradeVersion_eq. simpl fst. simpl snd.
  split; [now rewrite outputRows_eq|]. split; [|split].
  - rewrite length_map.
    assert (Hf : forall f : UpgradeOption -> bool,
               (forall o, f (normalizeVersion o) = f o) ->
               List.filter f (map normalizeVersion l)
               = map normalizeVersion (List.filter f l)).
    { intros f Hf. induction l as [|o l IH]; simpl; [reflexivity|].
      rewrite Hf, IH. now destruct (f o). }
    rewrite Hf by reflexivity. rewrite length_map.
    destruct peer.
    + rewrite <- filter_length_split. reflexivity.
    + rewrite Nat.sub_0_r. clear Hf.
      induction l as [|o l IH]; simpl; [reflexivity|]. now rewrite IH.
  - apply List.Forall_forall. intros o [_ Ho]%filter_In.
    unfold shown in Ho. now apply negb_true_iff in Ho.
  - intros Hnl. rewrite outputRows_eq. apply lineCount_join.
    apply List.Forall_forall. intros r Hr. split.
    + apply in_map_iff in Hr as (o & <- & _). apply renderRow_nonempty.
    + revert r Hr. now apply List.Forall_forall.
Qed.

End FormatterClaims.

(** ** The monad *)

Lemma bind_Ok_inv {A B} (m : M A) (k : A -> M B) (w w' : World) (b : B) :
  bind m k w = (Ok b, w') ->
  exists a w1, m w = (Ok a, w1) /\ k a w1 = (Ok b, w').
Proof.
  unfold bind. destruct (m w) as [[a|e] w1]; [|discriminate].
  intros Hk. now exists a, w1.
Qed.

Lemma bind_Ok {A B} (m : M A) (k : A -> M B) (w w1 : World) (a : A) :
  m w = (Ok a, w1) -> bind m k w = k a w1.
Proof. unfold bind. now intros ->. Qed.

Lemma bind_Throw {A B} (m : M A) (k : A -> M B) (w w1 : World) (e : Error) :
  m w = (Throw e, w1) -> bind m k w = (Throw e, w1).
Proof. unfold bind. now intros ->. Qed.

(** ** The loop of the peer resolver *)

Section ResolverProperties.
Context {env : Collaborators}.

Lemma existsb_package (l : list UpgradeOption) (p : string) :
  existsb (fun c => String.eqb (package c) p) l = true
  <-> In p (map package l).
Proof.
  rewrite existsb_exists, in_map_iff. split.
  - intros (c & Hc & Heq). apply String.eqb_eq in Heq. now exists c.
  - intros (c & Heq & Hc). exists c. split; [exact Hc|].
    now apply String.eqb_eq.
Qed.

Lemma installedVersion_absent (deps : Dependencies) (p : string) :
  deps !! p = None -> installedVersion deps p = None.
Proof.
  unfold installedVersion, readDependency. intros ->.
  now destruct (existsb _ inheritedProperties).
Qed.

Lemma installedVersion_Some (deps : Dependencies) (p current : string) :
  installedVersion deps p = Some current ->
  deps !! p = Some current /\ current <> "".
Proof.
  unfold installedVersion, readDependency.
  destruct (deps !! p) as [[|a s]|]; try discriminate.
  - intros [= <-]. split; [reflexivity | discriminate].
  - now destruct (existsb _ inheritedProperties).
Qed.

Lemma installedVersion_own (deps : Dependencies) (p current : string) :
  installedVersion deps p = Some current -> inheritedOnly deps p = false.
Proof.
  unfold installedVersion, inheritedOnly.
  now destruct (readDependency deps p) as [|[|a s]|].
Qed.

Lemma inheritedOnly_absent (deps : Dependencies) (p : string) :
  inheritedOnly deps p = true ->
  deps !! p = None /\ installedVersion deps p = None.
Proof.
  unfold inheritedOnly, installedVersion, readDependency.
  destruct (deps !! p); [discriminate|].
  now destruct (existsb _ inheritedProperties).
Qed.

(** The test [!currentVersion] against the reads. *)
Lemma missing_true (deps : Dependencies) (p : string) :
  missing deps p = true <->
  installedVersion deps p = None /\ inheritedOnly deps p = false.
Proof.
  unfold missing, installedVersion, inheritedOnly.
  destruct (readDependency deps p) as [|[|a s]|]; intuition discriminate.
Qed.

Lemma missing_installed (deps : Dependencies) (p current : string) :
  installedVersion deps p = Some current -> missing deps p = false.
Proof.
  unfold missing, installedVersion.
  now destruct (readDependency deps p) as [|[|a s]|].
Qed.

Lemma missing_inherited (deps : Dependencies) (p : string) :
  inheritedOnly deps p = true -> missing deps p = false.
Proof.
  unfold missing, inheritedOnly.
  now destruct (readDependency deps p) as [|[|a s]|].
Qed.

Lemma missing_false (deps : Dependencies) (p : string) :
  missing deps p = false ->
  inheritedOnly deps p = true \/ exists current, installedVersion deps p = Some current.
Proof.
  unfold missing, installedVersion, inheritedOnly.
  destruct (readDependency deps p) as [|[|a s]|]; try discriminate.
  - right. now eexists.
  - now left.
Qed.

(** The four ways through the body of the loop. *)
Lemma visitPeer_duplicate deps acc p v w :
  In p (map package acc) -> visitPeer deps acc (p, v) w = (Ok acc, w).
Proof.
  intros Hp. apply existsb_package in Hp. unfold visitPeer. now rewrite Hp.
Qed.

Lemma visitPeer_missing deps acc p v w :
  ~ In p (map package acc) ->
  inheritedOnly deps p = false ->
  installedVersion deps p = None ->
  visitPeer deps acc (p, v) w
  = (Ok acc, mkWorld (warnings w ++ [missingPeerMessage p]) (boxes w)).
Proof.
  intros Hp Hown Hm. unfold visitPeer.
  destruct (existsb _ acc) eqn:E; [now apply existsb_package in E|].
  unfold inheritedOnly in Hown. unfold installedVersion in Hm.
  now destruct (readDependency deps p) as [|[|a s]|].
Qed.

Lemma visitPeer_inherited deps acc p v w :
  ~ In p (map package acc) ->
  inheritedOnly deps p = true ->
  visitPeer deps acc (p, v) w = (Throw inheritedReadError, w).
Proof.
  intros Hp Hinh. unfold visitPeer.
  destruct (existsb _ acc) eqn:E; [now apply existsb_package in E|].
  unfold inheritedOnly in Hinh.
  now destruct (readDependency deps p) as [|[|a s]|].
Qed.

Lemma visitPeer_installed deps acc p v w current :
  ~ In p (map package acc) ->
  installedVersion deps p = Some current ->
  visitPeer deps acc (p, v) w
  = match compareVersions current (transformPeerVersion v) with
    | Ok z => (Ok (acc ++ [peerCandidate deps p v current z]), w)
    | Throw e => (Throw e, w)
    end.
Proof.
  intros Hp Hm. unfold visitPeer.
  destruct (existsb _ acc) eqn:E; [now apply existsb_package in E|].
  unfold installedVersion in Hm.
  destruct (readDependency deps p) as [|[|a s]|]; try discriminate.
  injection Hm as <-. unfold bind, liftR, ret.
  now destruct (compareVersions (String a s) (transformPeerVersion v)).
Qed.

Lemma visitPeer_cases deps acc p v w :
  (In p (map package acc) /\ visitPeer deps acc (p, v) w = (Ok acc, w))
  \/ (~ In p (map package acc) /\ missing deps p = true
      /\ visitPeer deps acc (p, v) w
         = (Ok acc, mkWorld (warnings w ++ [missingPeerMessage p]) (boxes w)))
  \/ (exists current,
         ~ In p (map package acc)
         /\ installedVersion deps p = Some current
         /\ visitPeer deps acc (p, v) w
            = match compareVersions current (transformPeerVersion v) with
              | Ok z => (Ok (acc ++ [peerCandidate deps p v current z]), w)
              | Throw e => (Throw e, w)
              end)
  \/ (~ In p (map package acc) /\ inheritedOnly deps p = true
      /\ visitPeer deps acc (p, v) w = (Throw inheritedReadError, w)).
Proof.
  destruct (in_dec String.string_dec p (map package acc)) as [Hin|Hout].
  - left. split; [exact Hin|]. now apply visitPeer_duplicate.
  - right. destruct (inheritedOnly deps p) eqn:Hinh.
    + right. right. repeat split; try assumption.
      now apply visitPeer_inherited.
    + destruct (installedVersion deps p) as [current|] eqn:E.
      * right. left. exists current. repeat split; try assumption.
        now apply visitPeer_installed.
      * left. repeat split; try assumption.
        -- now apply missing_true.
        -- now apply visitPeer_missing.
Qed.

Lemma firstEntry_other (name p v : string) (rest : Entries) :
  p <> name -> firstEntry name ((p, v) :: rest) = firstEntry name rest.
Proof.
  intros Hne. simpl. destruct (String.eqb p name) eqn:E; [|reflexivity].
  now apply String.eqb_eq in E.
Qed.

Lemma firstEntry_In (name v : string) (entries : Entries) :
  firstEntry name entries = Some v -> In (name, v) entries.
Proof.
  induction entries as [|[p pv] rest IH]; simpl; [discriminate|].
  destruct (String.eqb p name) eqn:E.
  - apply String.eqb_eq in E. intros [= ->]. left. now subst.
  - intros Hv. right. now apply IH.
Qed.

(** What a run of the loop that returns has added to the list. *)
Lemma visitPeers_Ok deps (entries : Entries) :
  forall acc w l w',
    visitPeers deps entries acc w = (Ok l, w') ->
    exists new,
      l = (acc ++ new)%list
      /\ NoDup (map package new)
      /\ forall c, In c new ->
                   ~ In (package c) (map package acc)
                   /\ builtFrom deps entries c.
Proof.
  induction entries as [|[p v] rest IH]; intros acc w l w' Hrun.
  - injection Hrun as <- <-. exists []. rewrite app_nil_r.
    repeat split; [apply NoDup_nil_2 | contradiction | contradiction].
  - cbn [visitPeers] in Hrun.
    apply bind_Ok_inv in Hrun as (acc' & w1 & Hstep & Hrest).
    apply IH in Hrest as (new & -> & Hnodup & Hnew).
    destruct (visitPeer_cases deps acc p v w)
      as [[Hin Heq] | [(Hout & Hmiss & Heq)
                      | [(current & Hout & Hinst & Heq) | (_ & _ & Heq)]]];
      rewrite Heq in Hstep; [| | |discriminate].
    + injection Hstep as <- <-. exists new.
      split; [reflexivity|]. split; [exact Hnodup|].
      intros c Hc. destruct (Hnew c Hc) as [Hfresh Hbuilt].
      split; [exact Hfresh|].
      destruct Hbuilt as (pv & cur & z & Hfirst & Hrest).
      exists pv, cur, z. split; [|exact Hrest].
      rewrite firstEntry_other; [exact Hfirst|]. intros ->. contradiction.
    + injection Hstep as <- <-. exists new.
      split; [reflexivity|]. split; [exact Hnodup|].
      intros c Hc. destruct (Hnew c Hc) as [Hfresh Hbuilt].
      split; [exact Hfresh|].
      destruct Hbuilt as (pv & cur & z & Hfirst & Hcur & Hrest).
      exists pv, cur, z. split; [|now split].
      rewrite firstEntry_other; [exact Hfirst|]. intros ->.
      apply missing_true in Hmiss as [Hmiss _]. congruence.
    + destruct (compareVersions current (transformPeerVersion v)) as [z|e] eqn:Hz;
        [|discriminate].
      injection Hstep as <- <-.
      exists (peerCandidate deps p v current z :: new).
      split; [now rewrite <- app_assoc|].
      assert (Hp : forall c, In c new -> package c <> p).
      { intros c Hc Heqp. destruct (Hnew c Hc) as [Hfresh _].
        apply Hfresh. rewrite map_app, in_app_iff. right. left.
        now rewrite Heqp. }
      split.
      * simpl. apply NoDup_cons. split; [|exact Hnodup].
        rewrite list_elem_of_In.
        intros (c & Hcp & Hc)%in_map_iff. now apply (Hp c).
      * intros c [<-|Hc].
        -- split; [exact Hout|]. exists v, current, z. simpl.
           rewrite String.eqb_refl. now repeat split.
        -- destruct (Hnew c Hc) as [Hfresh Hbuilt]. split.
           ++ intros Hin. apply Hfresh. rewrite map_app, in_app_iff. now left.
           ++ destruct Hbuilt as (pv & cur & z' & Hfirst & Hrest).
              exists pv, cur, z'. split; [|exact Hrest].
              rewrite firstEntry_other; [exact Hfirst|].
              intros Heqp. now apply (Hp c).
Qed.

End ResolverProperties.

(** ** Strings around a name *)

Lemma string_length_app (a b : string) :
  String.length (a +:+ b) = String.length a + String.length b.
Proof. induction a as [|x a IH]; simpl; [reflexivity | now rewrite IH]. Qed.

Lemma string_app_inv_head (a b c : string) : a +:+ b = a +:+ c -> b = c.
Proof.
  induction a as [|x a IH]; simpl; [trivial|].
  intros [= Heq]. now apply IH.
Qed.

Lemma string_app_inv_tail (a b c : string) : a +:+ c = b +:+ c -> a = b.
Proof.
  revert b. induction a as [|x a IH]; intros [|y b] Heq; [reflexivity| | |].
  - apply (f_equal String.length) in Heq.
    rewrite !string_length_app in Heq. simpl in Heq. lia.
  - apply (f_equal String.length) in Heq.
    rewrite !string_length_app in Heq. simpl in Heq. lia.
  - injection Heq as -> Heq. f_equal. now apply IH.
Qed.

Lemma missingPeerMessage_inj (p q : string) :
  missingPeerMessage p = missingPeerMessage q -> p = q.
Proof.
  unfold missingPeerMessage. intros Heq.
  apply string_app_inv_head in Heq. now apply string_app_inv_tail in Heq.
Qed.

Lemma missingPeerMessage_eqb (p q : string) :
  String.eqb (missingPeerMessage p) (missingPeerMessage q) = String.eqb p q.
Proof.
  destruct (String.eqb p q) eqn:E.
  - apply String.eqb_eq in E. subst. apply String.eqb_refl.
  - apply String.eqb_neq. intros Heq%missingPeerMessage_inj.
    apply String.eqb_neq in E. contradiction.
Qed.

(** ** What the peer resolver returns and emits *)

Section ResolverRuns.
Context {env : Collaborators}.

Lemma resolvePeers_eq deps (entries : Entries) (w : World) :
  resolvePeers deps entries w = visitPeers deps entries [] w.
Proof. now destruct entries. Qed.

Lemma getPackagePeerDep_eq name deps peers (w : World) :
  getPackagePeerDep name deps peers w
  = match peerMapping name peers with
    | Ok entries => visitPeers deps entries [] w
    | Throw e => (Throw e, w)
    end.
Proof.
  unfold getPackagePeerDep, peerMapping, getPackagePeerDep_resume.
  destruct peers as [entries|]; [apply resolvePeers_eq|].
  unfold bind, liftR.
  destruct (exec (npmShowCommand name)) as [text|e]; [|reflexivity].
  destruct (JSON_parse text) as [parsed|e]; [|reflexivity].
  apply resolvePeers_eq.
Qed.

Lemma visitPeers_app deps (pre post : Entries) acc (w : World) :
  visitPeers deps (pre ++ post) acc w
  = match visitPeers deps pre acc w with
    | (Ok acc', w1) => visitPeers deps post acc' w1
    | (Throw e, w1) => (Throw e, w1)
    end.
Proof.
  revert acc w. induction pre as [|entry pre IH]; intros acc w; [reflexivity|].
  cbn [app visitPeers]. unfold bind.
  destruct (visitPeer deps acc entry w) as [[acc'|e] w1]; [apply IH | reflexivity].
Qed.

Lemma builtFrom_installed deps entries c :
  builtFrom deps entries c -> missing deps (package c) = false.
Proof.
  intros (pv & cur & z & _ & Hcur & _). now apply (missing_installed deps _ cur).
Qed.

(** A run from the empty list holds installed packages only. *)
Lemma visitPeers_installed deps entries w l w' :
  visitPeers deps entries [] w = (Ok l, w') ->
  forall c, In c l -> missing deps (package c) = false.
Proof.
  intros (new & -> & _ & Hnew)%visitPeers_Ok c Hc.
  destruct (Hnew c Hc) as [_ Hbuilt]. now apply builtFrom_installed in Hbuilt.
Qed.

Lemma visitPeers_owned deps entries w l w' :
  visitPeers deps entries [] w = (Ok l, w') ->
  forall c, In c l -> exists current,
      installedVersion deps (package c) = Some current.
Proof.
  intros (new & -> & _ & Hnew)%visitPeers_Ok c Hc.
  destruct (Hnew c Hc) as [_ (pv & cur & z & _ & Hcur & _)]. now exists cur.
Qed.

(** One diagnostic for each entry whose package is missing, in the order
    of the entries, and nothing else. *)
Lemma visitPeers_warnings deps (entries : Entries) :
  forall acc w l w',
    (forall c, In c acc -> missing deps (package c) = false) ->
    visitPeers deps entries acc w = (Ok l, w') ->
    warnings w'
    = warnings w
      ++ map missingPeerMessage (List.filter (missing deps) (map fst entries))
    /\ boxes w' = boxes w.
Proof.
  induction entries as [|[p v] rest IH]; intros acc w l w' Hacc Hrun.
  - injection Hrun as <- <-. simpl. now rewrite app_nil_r.
  - cbn [visitPeers] in Hrun.
    apply bind_Ok_inv in Hrun as (acc' & w1 & Hstep & Hrest).
    destruct (visitPeer_cases deps acc p v w)
      as [[Hin Heq] | [(Hout & Hmiss & Heq)
                      | [(current & Hout & Hinst & Heq) | (_ & _ & Heq)]]];
      rewrite Heq in Hstep; [| | |discriminate].
    + injection Hstep as <- <-.
      apply in_map_iff in Hin as (c & <- & Hc).
      simpl. rewrite (Hacc c Hc). exact (IH acc w l w' Hacc Hrest).
    + injection Hstep as <- <-.
      apply (IH acc) in Hrest as [Hw Hb]; [|exact Hacc].
      simpl. rewrite Hmiss.
      simpl in Hw, Hb. rewrite Hw, <- app_assoc. now split.
    + destruct (compareVersions current (transformPeerVersion v)) as [z|e];
        [|discriminate].
      injection Hstep as <- <-.
      simpl. rewrite (missing_installed deps p current Hinst).
      apply (IH (acc ++ [peerCandidate deps p v current z]) w l w');
        [|exact Hrest].
      intros c [Hc|[<-|[]]]%in_app_iff; [now apply Hacc|].
      simpl. now apply (missing_installed deps p current).
Qed.

(** Every installed package named by an entry gets a candidate. *)
Lemma visitPeers_complete deps (entries : Entries) :
  forall acc w l w',
    visitPeers deps entries acc w = (Ok l, w') ->
    forall q, In q (map fst entries) -> missing deps q = false ->
              In q (map package l).
Proof.
  induction entries as [|[p v] rest IH]; intros acc w l w' Hrun q Hq Hinst;
    [contradiction|].
  cbn [visitPeers] in Hrun.
  apply bind_Ok_inv in Hrun as (acc' & w1 & Hstep & Hrest).
  destruct Hq as [Hq|Hq]; [|now apply (IH acc' w1 l w')].
  simpl in Hq. subst q.
  assert (Hp : In p (map package acc')).
  { destruct (visitPeer_cases deps acc p v w)
      as [[Hin Heq] | [(Hout & Hmiss & Heq)
                      | [(current & Hout & Hcur & Heq) | (_ & _ & Heq)]]];
      rewrite Heq in Hstep; [| | |discriminate].
    - now injection Hstep as <- <-.
    - congruence.
    - destruct (compareVersions current (transformPeerVersion v)) as [z|e];
        [|discriminate].
      injection Hstep as <- <-. rewrite map_app, in_app_iff. right. now left. }
  apply visitPeers_Ok in Hrest as (new & -> & _).
  rewrite map_app, in_app_iff. now left.
Qed.

(** The loop returns whenever the comparisons it makes do. *)
Lemma visitPeers_total deps (entries : Entries) :
  (forall p, In p (map fst entries) -> inheritedOnly deps p = false) ->
  (forall p v current,
      In (p, v) entries ->
      installedVersion deps p = Some current ->
      exists z, compareVersions current (transformPeerVersion v) = Ok z) ->
  forall acc w, exists l w', visitPeers deps entries acc w = (Ok l, w').
Proof.
  induction entries as [|[p v] rest IH]; intros Hown Htotal acc w.
  - now exists acc, w.
  - assert (Hrest : forall acc w,
               exists l w', visitPeers deps rest acc w = (Ok l, w')).
    { apply IH.
      - intros q Hq. apply Hown. now right.
      - intros q qv current Hq. apply Htotal. now right. }
    cbn [visitPeers].
    destruct (visitPeer_cases deps acc p v w)
      as [[Hin Heq] | [(Hout & Hmiss & Heq)
                      | [(current & Hout & Hcur & Heq) | (_ & Hinh & _)]]].
    + rewrite (bind_Ok _ _ _ _ _ Heq). apply Hrest.
    + rewrite (bind_Ok _ _ _ _ _ Heq). apply Hrest.
    + destruct (Htotal p v current (or_introl eq_refl) Hcur) as [z Hz].
      rewrite Hz in Heq. rewrite (bind_Ok _ _ _ _ _ Heq). apply Hrest.
    + rewrite (Hown p (or_introl eq_refl)) in Hinh. discriminate.
Qed.

(** The list a run returns does not depend on what was emitted before. *)
Lemma visitPeers_result deps (entries : Entries) :
  forall acc w1 w2,
    fst (visitPeers deps entries acc w1) = fst (visitPeers deps entries acc w2).
Proof.
  induction entries as [|[p v] rest IH]; intros acc w1 w2; [reflexivity|].
  cbn [visitPeers]. unfold bind.
  destruct (visitPeer_cases deps acc p v w1)
    as [[Hin Heq] | [(Hout & Hmiss & Heq)
                    | [(current & Hout & Hcur & Heq) | (Hout & Hinh & Heq)]]];
    rewrite Heq.
  - rewrite (visitPeer_duplicate deps acc p v w2 Hin). apply IH.
  - apply missing_true in Hmiss as [Hmiss Hinh].
    rewrite (visitPeer_missing deps acc p v w2 Hout Hinh Hmiss). apply IH.
  - rewrite (visitPeer_installed deps acc p v w2 current Hout Hcur).
    destruct (compareVersions current (transformPeerVersion v));
      [apply IH | reflexivity].
  - now rewrite (visitPeer_inherited deps acc p v w2 Hout Hinh).
Qed.

Lemma count_missing_warnings deps (p : string) (names : list string) :
  missing deps p = true ->
  length (List.filter (String.eqb (missingPeerMessage p))
                      (map missingPeerMessage
                           (List.filter (missing deps) names)))
  = length (List.filter (String.eqb p) names).
Proof.
  intros Hmiss. induction names as [|q names IH]; [reflexivity|].
  cbn [List.filter]. destruct (String.eqb p q) eqn:E.
  - apply String.eqb_eq in E. subst q. rewrite Hmiss.
    cbn [map List.filter]. rewrite String.eqb_refl.
    cbn [length]. now rewrite IH.
  - destruct (missing deps q); [|exact IH].
    cbn [map List.filter]. now rewrite missingPeerMessage_eqb, E.
Qed.

Lemma getPackagePeerDep_result name deps peers (w1 w2 : World) :
  fst (getPackagePeerDep name deps peers w1)
  = fst (getPackagePeerDep name deps peers w2).
Proof.
  rewrite !getPackagePeerDep_eq.
  destruct (peerMapping name peers); [apply visitPeers_result | reflexivity].
Qed.

End ResolverRuns.

Section ResolverClaims.
Context {env : Collaborators}.

(** C3. A call of the peer resolver returns whenever no entry names a
    property that the installed dependencies do not own but inherit and the
    comparisons it makes return, and the candidates it returns have
    pairwise distinct package names; each of them is made from the first
    entry of the peer mapping under its name, and every installed package
    the mapping names has its candidate. *)
Theorem peer_names_distinct name deps peers (entries : Entries) (w : World) :
  peerMapping name peers = Ok entries ->
  ((forall p, In p (map fst entries) -> inheritedOnly deps p = false) ->
   (forall p v current,
       In (p, v) entries ->
       installedVersion deps p = Some current ->
       exists z, compareVersions current (transformPeerVersion v) = Ok z) ->
   exists l w', getPackagePeerDep name deps peers w = (Ok l, w'))
  /\ (forall l w',
         getPackagePeerDep name deps peers w = (Ok l, w') ->
         NoDup (map package l)
         /\ (forall c, In c l -> builtFrom deps entries c)
         /\ (forall p, In p (map fst entries) -> missing deps p = false ->
                       In p (map package l))).
Proof.
  intros Hmap. rewrite getPackagePeerDep_eq, Hmap. split.
  - intros Hown Htotal. now apply visitPeers_total.
  - intros l w' Hrun.
    pose proof (visitPeers_complete deps entries [] w l w' Hrun) as Hall.
    apply visitPeers_Ok in Hrun as (new & -> & Hnodup & Hnew).
    repeat split; [exact Hnodup | | exact Hall].
    intros c Hc. now destruct (Hnew c Hc).
Qed.

(** C7. Each candidate the peer resolver returns is latest exactly when
    the comparison of the installed version with the target taken from
    the declared range of the peer is at least zero; its displayed target
    is then the normalized installed version, and otherwise the
    highlighted difference of the target against the installed version. *)
Theorem peer_candidate_classified name deps peers (entries : Entries)
        (w w' : World) (l : list UpgradeOption) :
  peerMapping name peers = Ok entries ->
  getPackagePeerDep name deps peers w = (Ok l, w') ->
  forall c, In c l ->
    exists peerVersion current z,
      In (package c, peerVersion) entries
      /\ deps !! package c = Some current
      /\ version c = current
      /\ compareVersions current (transformPeerVersion peerVersion) = Ok z
      /\ (isLatest c = true <-> (0 <= z)%Z)
      /\ latestVersion c
         = (if isLatest c then transformPeerVersion current
            else getColorVersion current (transformPeerVersion peerVersion))
      /\ versionMode c = vmMode (getVersionAndMode deps (package c)).
Proof.
  intros Hmap Hrun c Hc. rewrite getPackagePeerDep_eq, Hmap in Hrun.
  apply visitPeers_Ok in Hrun as (new & -> & _ & Hnew).
  destruct (Hnew c Hc) as [_ (pv & cur & z & Hfirst & Hcur & Hz & Hshape)].
  exists pv, cur, z.
  split; [now apply firstEntry_In|].
  split; [now apply installedVersion_Some in Hcur|].
  rewrite Hshape. unfold peerCandidate. simpl.
  split; [reflexivity|]. split; [exact Hz|].
  split; [apply Z.leb_le|]. split; [|reflexivity].
  now destruct (0 <=? z)%Z.
Qed.

(** C4, as the code has it for a name that the installed dependencies do
    not own but inherit, such as [constructor]: the read of the name is
    truthy, so that the entry is neither warned about nor skipped; the
    member read is handed on as the installed version and the call ends
    with an error, the world being as the entries in front have left it,
    without a warning that names the package. *)
Theorem inherited_peer_aborts name deps peers (pre post : Entries)
        (p v : string) (w w1 : World) (acc : list UpgradeOption) :
  peerMapping name peers = Ok (pre ++ (p, v) :: post) ->
  getPackagePeerDep name deps (Some pre) w = (Ok acc, w1) ->
  deps !! p = None ->
  In p inheritedProperties ->
  getPackagePeerDep name deps peers w = (Throw inheritedReadError, w1).
Proof.
  intros Hmap Hpre Habsent Hinherited.
  assert (Hinh : inheritedOnly deps p = true).
  { unfold inheritedOnly, readDependency. rewrite Habsent.
    destruct (existsb (String.eqb p) inheritedProperties) eqn:E; [reflexivity|].
    assert (Hex : existsb (String.eqb p) inheritedProperties = true).
    { apply existsb_exists. exists p. split; [exact Hinherited|].
      apply String.eqb_refl. }
    congruence. }
  rewrite getPackagePeerDep_eq in Hpre. cbn [peerMapping] in Hpre.
  rewrite getPackagePeerDep_eq, Hmap, visitPeers_app, Hpre.
  cbn [visitPeers]. apply bind_Throw. apply visitPeer_inherited; [|exact Hinh].
  intros (c & <- & Hc)%in_map_iff.
  destruct (visitPeers_owned deps pre w acc w1 Hpre c Hc) as [cur Hcur].
  now rewrite (installedVersion_absent deps _ Habsent) in Hcur.
Qed.

(** X16. An entry of the peer mapping whose package the installed
    dependencies neither own nor inherit makes the resolver emit one
    warning that names the package and go on with the entries that follow,
    the list of candidates as it was: the call ends as it would without the
    entry, with the same list when it returns. A call that returns has no
    candidate for the package, and has emitted one warning for each entry
    with a missing package, in their order: as many warnings name the
    package as there are entries under its name. *)
Theorem missing_peer_skipped name deps peers (pre post : Entries)
        (p v : string) (w : World) :
  peerMapping name peers = Ok (pre ++ (p, v) :: post) ->
  deps !! p = None ->
  ~ In p inheritedProperties ->
  getPackagePeerDep name deps peers w
  = match visitPeers deps pre [] w with
    | (Ok acc, w1) =>
        visitPeers deps post acc
                   (mkWorld (warnings w1 ++ [missingPeerMessage p]) (boxes w1))
    | (Throw e, w1) => (Throw e, w1)
    end
  /\ fst (getPackagePeerDep name deps peers w)
     = fst (getPackagePeerDep name deps (Some (pre ++ post)) w)
  /\ forall l w',
      getPackagePeerDep name deps peers w = (Ok l, w') ->
      let emitted :=
        map missingPeerMessage
            (List.filter (missing deps) (map fst (pre ++ (p, v) :: post))) in
      ~ In p (map package l)
      /\ warnings w' = warnings w ++ emitted
      /\ length (List.filter (String.eqb (missingPeerMessage p)) emitted)
         = length (List.filter (String.eqb p)
                               (map fst (pre ++ (p, v) :: post))).
Proof.
  intros Hmap Habsent Hplain.
  assert (Hmiss : installedVersion deps p = None)
    by now apply installedVersion_absent.
  assert (Hown : inheritedOnly deps p = false).
  { unfold inheritedOnly, readDependency. rewrite Habsent.
    destruct (existsb (String.eqb p) inheritedProperties) eqn:E; [|reflexivity].
    apply existsb_exists in E as (q & Hq & Heq).
    apply String.eqb_eq in Heq. now subst q. }
  assert (Hstep : visitPeers deps (pre ++ (p, v) :: post) [] w
                  = match visitPeers deps pre [] w with
                    | (Ok acc, w1) =>
                        visitPeers deps post acc
                          (mkWorld (warnings w1 ++ [missingPeerMessage p])
                                   (boxes w1))
                    | (Throw e, w1) => (Throw e, w1)
                    end).
  { rewrite visitPeers_app.
    destruct (visitPeers deps pre [] w) as [[acc|e] w1] eqn:Hpre; [|reflexivity].
    cbn [visitPeers].
    assert (Hout : ~ In p (map package acc)).
    { intros (c & <- & Hc)%in_map_iff.
      destruct (visitPeers_owned deps pre w acc w1 Hpre c Hc) as [cur Hcur].
      congruence. }
    now rewrite (bind_Ok _ _ _ _ _
                   (visitPeer_missing deps acc p v w1 Hout Hown Hmiss)). }
  rewrite !getPackagePeerDep_eq, Hmap. cbn [peerMapping].
  split; [exact Hstep|]. split.
  - rewrite Hstep, visitPeers_app.
    destruct (visitPeers deps pre [] w) as [[acc|e] w1]; [|reflexivity].
    apply visitPeers_result.
  - intros l w' Hrun. split; [|split].
    + intros (c & <- & Hc)%in_map_iff.
      destruct (visitPeers_owned deps _ w l w' Hrun c Hc) as [cur Hcur].
      congruence.
    + apply (visitPeers_warnings deps _ [] w l w'); [contradiction | exact Hrun].
    + apply count_missing_warnings. now apply missing_true.
Qed.

(** C5, amended. A lookup whose output parses to [null] or to a mapping
    without entries makes the resolver return the empty list. A lookup
    that fails, or whose output does not parse, makes the call end with
    that error: no list is returned. *)
Theorem lookup_outcomes name deps (w : World) :
  (forall e,
      exec (npmShowCommand name) = Throw e ->
      getPackagePeerDep name deps None w = (Throw e, w))
  /\ (forall text e,
         exec (npmShowCommand name) = Ok text ->
         JSON_parse text = Throw e ->
         getPackagePeerDep name deps None w = (Throw e, w))
  /\ (forall text parsed,
         exec (npmShowCommand name) = Ok text ->
         JSON_parse text = Ok parsed ->
         entriesOrEmpty parsed = [] ->
         getPackagePeerDep name deps None w = (Ok [], w)).
Proof.
  rewrite getPackagePeerDep_eq. unfold peerMapping. repeat split.
  - now intros e ->.
  - now intros text e -> ->.
  - now intros text parsed -> -> ->.
Qed.

End ResolverClaims.

(** ** The engine *)

Section EngineProperties.
Context {env : Collaborators}.

Lemma outputDependencies_eq (outputList peerDepList : list UpgradeOption)
      (w : World) :
  exists w',
    outputDependencies outputList peerDepList w
    = (Ok (map normalizeVersion outputList, map normalizeVersion peerDepList), w')
    /\ warnings w' = warnings w.
Proof.
  unfold outputDependencies. rewrite !getUpgradeVersion_eq.
  eexists. split; reflexivity.
Qed.

Lemma filter_stale_normalizeVersion (l : list UpgradeOption) :
  List.filter stale (map normalizeVersion l)
  = map normalizeVersion (List.filter stale l).
Proof.
  induction l as [|o l IH]; [reflexivity|].
  cbn [map List.filter].
  change (stale (normalizeVersion o)) with (stale o).
  destruct (stale o); cbn [map]; now rewrite IH.
Qed.

Lemma filter_stale_isLatest (l : list UpgradeOption) :
  List.Forall (fun c => isLatest c = false) (List.filter stale l).
Proof.
  apply List.Forall_forall. intros c [_ Hc]%filter_In.
  unfold stale in Hc. now apply negb_true_iff in Hc.
Qed.

(** *** The fan-out over the primary candidates *)

Lemma startAll_resumesTo deps (opts : list UpgradeOption)
      (peerLists : list (list UpgradeOption)) :
  Forall2 (fun o l =>
             forall w, fst (getPackagePeerDep (package o) deps
                                              (peerDependencies o) w) = Ok l)
          opts peerLists ->
  forall w, Forall2 (resumesTo deps) (fst (startAll deps opts w)) peerLists.
Proof.
  induction 1 as [|o l opts peerLists Ho _ IH]; intros w; [constructor|].
  cbn [startAll].
  destruct (startPeerDep deps o w) as [s w1] eqn:Hs.
  specialize (IH w1). destruct (startAll deps opts w1) as [ss w2].
  constructor; [|exact IH].
  unfold startPeerDep in Hs. unfold getPackagePeerDep in Ho.
  destruct (peerDependencies o) as [entries|].
  - specialize (Ho w). destruct (resolvePeers deps entries w) as [r w0].
    injection Hs as <- _. exact Ho.
  - injection Hs as <- _. exact Ho.
Qed.

Lemma resumeAll_results deps (started : list Started)
      (peerLists : list (list UpgradeOption)) :
  Forall2 (resumesTo deps) started peerLists ->
  forall w, map snd (fst (resumeAll deps started w)) = map Ok peerLists.
Proof.
  induction 1 as [|s l started peerLists Hs _ IH]; intros w; [reflexivity|].
  cbn [resumeAll]. destruct s as [r|output]; simpl in Hs.
  - specialize (IH w). destruct (resumeAll deps started w) as [rs w'].
    simpl in *. now rewrite Hs, IH.
  - specialize (Hs w).
    destruct (getPackagePeerDep_resume deps output w) as [r w1].
    specialize (IH w1). destruct (resumeAll deps started w1) as [rs w2].
    simpl in *. now rewrite Hs, IH.
Qed.

Lemma all_fulfilled (results : list (bool * Result (list UpgradeOption)))
      (peerLists : list (list UpgradeOption)) :
  map snd results = map Ok peerLists ->
  (forall b, rejections b results = []) /\ fulfilled results = peerLists.
Proof.
  revert peerLists.
  induction results as [|[b r] results IH]; intros [|l peerLists] Heq;
    try discriminate; [now split|].
  simpl in Heq. injection Heq as -> Heq.
  destruct (IH peerLists Heq) as [Hrej Hful].
  split; [intros b'; simpl; apply Hrej | simpl; now rewrite Hful].
Qed.

Lemma promiseAllPeerDeps_Ok deps (opts : list UpgradeOption)
      (peerLists : list (list UpgradeOption)) (w : World) :
  Forall2 (fun o l =>
             forall w, fst (getPackagePeerDep (package o) deps
                                              (peerDependencies o) w) = Ok l)
          opts peerLists ->
  exists w', promiseAllPeerDeps deps opts w = (Ok peerLists, w').
Proof.
  intros Hall. unfold promiseAllPeerDeps.
  pose proof (startAll_resumesTo deps opts peerLists Hall w) as Hstarted.
  destruct (startAll deps opts w) as [started w1]. simpl in Hstarted.
  pose proof (resumeAll_results deps started peerLists Hstarted w1) as Hres.
  destruct (resumeAll deps started w1) as [results w2]. simpl in Hres.
  destruct (all_fulfilled results peerLists Hres) as [Hrej Hful].
  rewrite !Hrej, Hful. now exists w2.
Qed.

(** C1. In umbrella mode, with [z] the comparison of the installed
    version of the umbrella package with the latest version of the store:
    when [z] is at least zero the list returned is empty, whatever the
    peers are; otherwise it is the umbrella candidate followed by the peer
    candidates that are not latest, those of the umbrella package first,
    then those of the theme package. All of them are returned as the
    renderer has left them, the first caret of their version dropped. *)
Theorem upgrade_umbrella (options : Upgrade) (w w1 w2 : World) (z : Z)
        (l1 l2 : list UpgradeOption) :
  isNextUIAll options = true ->
  let deps := allDependencies options in
  let vm := getVersionAndMode deps NEXT_UI in
  compareVersions (currentVersion vm) store_latestVersion = Ok z ->
  getPackagePeerDep NEXT_UI deps None w = (Ok l1, w1) ->
  getPackagePeerDep THEME_UI deps None w1 = (Ok l2, w2) ->
  fst (upgrade options w)
  = Ok (if (0 <=? z)%Z then []
        else normalizeVersion
               (mkUpgradeOption NEXT_UI (currentVersion vm)
                  (getColorVersion (currentVersion vm) store_latestVersion)
                  false (vmMode vm) None)
             :: map normalizeVersion (List.filter stale (l1 ++ l2))).
Proof.
  intros Hmode deps vm Hz H1 H2. unfold upgrade. rewrite Hmode.
  fold deps. fold vm. unfold bind at 1. unfold liftR at 1. rewrite Hz.
  rewrite (bind_Ok _ _ _ _ _ H1), (bind_Ok _ _ _ _ _ H2).
  match goal with
  | |- context [outputDependencies ?a ?b] =>
      destruct (outputDependencies_eq a b w2) as (w3 & Hout & _)
  end.
  rewrite (bind_Ok _ _ _ _ _ Hout). unfold ret.
  destruct (0 <=? z)%Z; [reflexivity|].
  simpl. now rewrite filter_stale_normalizeVersion.
Qed.

(** C2. Whatever the mode, no candidate of a list that [upgrade] returns
    is latest. In multi-component mode, when the peer resolution of each
    primary candidate returns, the list returned is the primary list
    (with the displayed targets rewritten) followed by the peer lists
    flattened in the order of the primary candidates, all as the renderer
    has left them, filtered to the candidates that are not latest. *)
Theorem upgrade_result_stale :
  (forall options w res w',
      upgrade options w = (Ok res, w') ->
      List.Forall (fun c => isLatest c = false) res)
  /\ (forall options peerLists w,
         isNextUIAll options = false ->
         Forall2 (fun o l =>
                    forall w0,
                      fst (getPackagePeerDep (package o)
                             (allDependencies options)
                             (peerDependencies o) w0) = Ok l)
                 (upgradeOptionList options) peerLists ->
         fst (upgrade options w)
         = Ok (List.filter stale
                 (map normalizeVersion
                      (map transformUpgradeOption (upgradeOptionList options)
                       ++ List.concat peerLists)))).
Proof.
  split.
  - intros options w res w' Hrun. unfold upgrade in Hrun.
    destruct (isNextUIAll options).
    + apply bind_Ok_inv in Hrun as (z & wa & _ & Hrun).
      apply bind_Ok_inv in Hrun as (l1 & wb & _ & Hrun).
      apply bind_Ok_inv in Hrun as (l2 & wc & _ & Hrun).
      apply bind_Ok_inv in Hrun as ([out peers] & wd & Hout & Hrun).
      match type of Hout with
      | outputDependencies ?a ?b ?w0 = _ =>
          destruct (outputDependencies_eq a b w0) as (w3 & Hout' & _)
      end.
      rewrite Hout' in Hout. injection Hout as <- <- _.
      injection Hrun as <- _.
      destruct (0 <=? z)%Z eqn:Hz; [constructor|].
      simpl. constructor; [reflexivity | apply filter_stale_isLatest].
    + apply bind_Ok_inv in Hrun as (ls & wa & _ & Hrun).
      apply bind_Ok_inv in Hrun as ([out peers] & wb & _ & Hrun).
      injection Hrun as <- _. apply filter_stale_isLatest.
  - intros options peerLists w Hmode Hall. unfold upgrade. rewrite Hmode.
    destruct (promiseAllPeerDeps_Ok _ _ _ w Hall) as (w1 & Hpeers).
    rewrite (bind_Ok _ _ _ _ _ Hpeers).
    match goal with
    | |- context [outputDependencies ?a ?b] =>
        destruct (outputDependencies_eq a b w1) as (w2 & Hout & _)
    end.
    rewrite (bind_Ok _ _ _ _ _ Hout). unfold ret. simpl.
    now rewrite map_app.
Qed.

End EngineProperties.

(** * The helper run on the sample collaborators *)

Lemma upgrade_umbrella_witness :
  fst (upgrade (mkUpgrade true Sample.installed []) Sample.world0)
  = Ok [Sample.umbrella;
        normalizeVersion Sample.framerPeer;
        normalizeVersion Sample.tailwindPeer].
Proof.
  etransitivity.
  - apply (upgrade_umbrella (mkUpgrade true Sample.installed [])
                            Sample.world0 Sample.world0 Sample.world0 (-1)
                            [Sample.reactPeer; Sample.framerPeer]
                            [Sample.tailwindPeer]);
      vm_compute; reflexivity.
  - vm_compute. reflexivity.
Defined.

Lemma upgrade_result_stale_witness :
  List.Forall (fun c => isLatest c = false)
              [Sample.umbrella; normalizeVersion Sample.framerPeer;
               normalizeVersion Sample.tailwindPeer]
  /\ fst (upgrade (mkUpgrade false Sample.installed
                             [Sample.button; Sample.theme]) Sample.world0)
     = Ok [normalizeVersion (transformUpgradeOption Sample.button);
           normalizeVersion Sample.tailwindPeer;
           normalizeVersion Sample.tailwindPeer].
Proof.
  split.
  - apply (proj1 upgrade_result_stale
                 (mkUpgrade true Sample.installed []) Sample.world0 _
                 (snd (upgrade (mkUpgrade true Sample.installed [])
                               Sample.world0))).
    vm_compute. reflexivity.
  - etransitivity.
    + apply (proj2 upgrade_result_stale
                   (mkUpgrade false Sample.installed [Sample.button; Sample.theme])
                   [[Sample.reactPeer; Sample.tailwindPeer]; [Sample.tailwindPeer]]
                   Sample.world0).
      * reflexivity.
      * repeat constructor; intros w0; vm_compute; reflexivity.
    + vm_compute. reflexivity.
Defined.

Lemma peer_names_distinct_witness :
  (exists l w',
      getPackagePeerDep "@nextui-org/react" Sample.installed None Sample.world0
      = (Ok l, w'))
  /\ NoDup (map package [Sample.reactPeer; Sample.framerPeer])
  /\ (forall c, In c [Sample.reactPeer; Sample.framerPeer] ->
                builtFrom Sample.installed Sample.reactEntries c)
  /\ (forall p, In p (map fst Sample.reactEntries) ->
                missing Sample.installed p = false ->
                In p (map package [Sample.reactPeer; Sample.framerPeer])).
Proof.
  destruct (peer_names_distinct "@nextui-org/react" Sample.installed None
                                Sample.reactEntries Sample.world0)
    as [Hreturns Hdistinct]; [vm_compute; reflexivity|].
  split.
  - apply Hreturns.
    + intros p [<-|[<-|[<-|[]]]]; reflexivity.
    + intros p v current [Hp|[Hp|[Hp|[]]]]; injection Hp as <- <-;
        vm_compute; intros [= <-]; eexists; reflexivity.
  - apply (Hdistinct _ Sample.world0). vm_compute. reflexivity.
Defined.

Lemma peer_candidate_classified_witness :
  exists peerVersion current z,
    In (package Sample.framerPeer, peerVersion) Sample.reactEntries
    /\ Sample.installed !! package Sample.framerPeer = Some current
    /\ version Sample.framerPeer = current
    /\ compareVersions current (transformPeerVersion peerVersion) = Ok z
    /\ (isLatest Sample.framerPeer = true <-> (0 <= z)%Z)
    /\ latestVersion Sample.framerPeer
       = (if isLatest Sample.framerPeer then transformPeerVersion current
          else getColorVersion current (transformPeerVersion peerVersion))
    /\ versionMode Sample.framerPeer
       = vmMode (getVersionAndMode Sample.installed (package Sample.framerPeer)).
Proof.
  apply (peer_candidate_classified "@nextui-org/react" Sample.installed None
           Sample.reactEntries Sample.world0 Sample.world0
           [Sample.reactPeer; Sample.framerPeer]).
  - vm_compute. reflexivity.
  - vm_compute. reflexivity.
  - right. left. reflexivity.
Defined.

Lemma missing_peer_skipped_witness :
  getPackagePeerDep "@nextui-org/button" Sample.installed
                    (Some Sample.explicitPeers) Sample.world0
  = (Ok [Sample.reactPeer; Sample.tailwindPeer],
     mkWorld [Sample.leftPadWarning] [])
  /\ fst (getPackagePeerDep "@nextui-org/button" Sample.installed
                            (Some Sample.explicitPeers) Sample.world0)
     = fst (getPackagePeerDep "@nextui-org/button" Sample.installed
                              (Some [("react", ">=18"); ("tailwindcss", ">=3.4.0")])
                              Sample.world0)
  /\ ~ In "left-pad" (map package [Sample.reactPeer; Sample.tailwindPeer])
  /\ length (List.filter (String.eqb Sample.leftPadWarning)
                         [Sample.leftPadWarning]) = 1.
Proof.
  destruct (missing_peer_skipped "@nextui-org/button" Sample.installed
              (Some Sample.explicitPeers)
              [("react", ">=18")] [("tailwindcss", ">=3.4.0")]
              "left-pad" "1.0.0" Sample.world0)
    as (Hrun & Hsame & Hlog);
    [reflexivity | vm_compute; reflexivity | vm_compute; intuition discriminate |].
  split; [rewrite Hrun; vm_compute; reflexivity|].
  split; [exact Hsame|].
  destruct (Hlog [Sample.reactPeer; Sample.tailwindPeer]
                 (mkWorld [Sample.leftPadWarning] []))
    as (Hout & _ & Hcount); [rewrite Hrun; vm_compute; reflexivity|].
  split; [exact Hout | exact Hcount].
Defined.

Lemma inherited_peer_aborts_witness :
  getPackagePeerDep "bar" ∅
                    (Some [("constructor", "1.0.0"); ("qux", "1.0.0")])
                    Sample.world0
  = (Throw inheritedReadError, Sample.world0).
Proof.
  apply (inherited_peer_aborts
           "bar" ∅ (Some [("constructor", "1.0.0"); ("qux", "1.0.0")])
           [] [("qux", "1.0.0")] "constructor" "1.0.0"
           Sample.world0 Sample.world0 []).
  - reflexivity.
  - reflexivity.
  - reflexivity.
  - left. reflexivity.
Defined.

(** C5, as the specification states it, fails: when the output of the
    lookup does not parse, and when the lookup fails, the call ends with
    the error and returns no list. *)
Lemma lookup_failure_propagates :
  fst (getPackagePeerDep "@nextui-org/button" Sample.installed None Sample.world0)
  = Throw (Thrown "Unexpected end of JSON input")
  /\ fst (getPackagePeerDep "@nextui-org/card" Sample.installed None Sample.world0)
     = Throw (Thrown "Command failed")
  /\ fst (getPackagePeerDep "@nextui-org/button" Sample.installed None
                            Sample.world0) <> Ok [].
Proof. repeat split; [vm_compute; reflexivity .. | vm_compute; discriminate]. Qed.

Lemma lookup_outcomes_witness :
  getPackagePeerDep "@nextui-org/card" Sample.installed None Sample.world0
  = (Throw (Thrown "Command failed"), Sample.world0)
  /\ getPackagePeerDep "@nextui-org/button" Sample.installed None Sample.world0
     = (Throw (Thrown "Unexpected end of JSON input"), Sample.world0)
  /\ getPackagePeerDep "@nextui-org/divider" Sample.installed None Sample.world0
     = (Ok [], Sample.world0).
Proof.
  split; [|split].
  - apply (proj1 (lookup_outcomes "@nextui-org/card" Sample.installed
                                  Sample.world0)).
    reflexivity.
  - apply (proj1 (proj2 (lookup_outcomes "@nextui-org/button" Sample.installed
                                         Sample.world0)) "").
    + reflexivity.
    + reflexivity.
  - apply (proj2 (proj2 (lookup_outcomes "@nextui-org/divider" Sample.installed
                                         Sample.world0)) "null" JNull);
      reflexivity.
Defined.

Lemma getUpgradeVersion_lines_witness :
  lineCount
    (fst (getUpgradeVersion
            [Sample.reactPeer; Sample.framerPeer; Sample.tailwindPeer] true))
  = 2.
Proof.
  etransitivity.
  - apply (getUpgradeVersion_lines
             [Sample.reactPeer; Sample.framerPeer; Sample.tailwindPeer] true).
    vm_compute. repeat constructor.
  - vm_compute. reflexivity.
Defined.

(** C9, as the specification states it, fails: a version with a tilde
    prefix that holds a caret is changed by the rewrite, and the row of a
    candidate that is latest does not show its version at all. *)
Lemma tilde_version_with_caret_changed :
  map version
      (snd (getUpgradeVersion
              [mkUpgradeOption "foo" "~1.0.0 || ^2.0.0" "3.0.0" false "~" None]
              false))
  = ["~1.0.0 || 2.0.0"]
  /\ "~1.0.0 || 2.0.0" <> "~1.0.0 || ^2.0.0"
  /\ String.index 0 "~~1.2.3"
       (fst (getUpgradeVersion
               [mkUpgradeOption "foo" "~1.2.3" "1.2.3" true "~" None] false))
     = None.
Proof.
  split; [vm_compute; reflexivity|].
  split; [discriminate|].
  vm_compute. reflexivity.
Qed.

Lemma stripCaret_first_caret_only_witness :
  let l := [Sample.reactPeer; Sample.framerPeer; Sample.tailwindPeer] in
  let m := fst (measureOptions (mkOptionMaxLen 0 0 0) l) in
  In Sample.framerPeer (snd (getUpgradeVersion l true))
  /\ exists rows,
      fst (getUpgradeVersion l true) = join newline rows
      /\ In (staleRow m Sample.framerPeer) rows
      /\ staleRow m Sample.framerPeer
         = "  "
           +:+ chalk_white
                 (padEnd "framer-motion"
                         (len_package m + String.length DEFAULT_SPACE)
                  +:+ DEFAULT_SPACE
                  +:+ padEnd ("~~" +:+ "10.16.0") (len_version m)
                  +:+ "  ->  " +:+ "~" +:+ "<yellow>10.17.0</yellow>")
           +:+ DEFAULT_SPACE.
Proof.
  intros l m.
  apply (proj2 (proj2 stripCaret_first_caret_only)
               l true Sample.framerPeer "10.16.0").
  - right. left. reflexivity.
  - reflexivity.
  - reflexivity.
  - reflexivity.
  - reflexivity.
Defined.

Lemma version_width_before_strip_witness :
  List.Forall (fun o' => String.length (version o') < 7)
              (snd (getUpgradeVersion [Sample.reactPeer; Sample.tailwindPeer]
                                      false)).
Proof.
  apply List.Forall_forall.
  apply (proj2 (proj2 (version_width_before_strip
                         [Sample.reactPeer; Sample.tailwindPeer] false))).
  intros o [<-|[<-|[]]]; vm_compute; intros; lia.
Defined.

(** Two runs of the peer resolver on a mapping passed explicitly: a peer
    installed below its declared range, and a peer that is not installed. *)
Example stale_peer_run :
  getPackagePeerDep "bar" {[ "baz" := "2.5.0" ]} (Some [("baz", "^3.0.0")])
                    Sample.world0
  = (Ok [mkUpgradeOption "baz" "2.5.0" "<yellow>3.0.0</yellow>" false "" None],
     Sample.world0).
Proof. vm_compute. reflexivity. Qed.

Example missing_peer_run :
  getPackagePeerDep "bar" {[ "baz" := "2.5.0" ]} (Some [("qux", "^1.0.0")])
                    Sample.world0
  = (Ok [],
     mkWorld ["Missing peerDependencies: qux, check whether it is installed"] []).
Proof. vm_compute. reflexivity. Qed.

(** * Further properties of the helper *)

(** ** Lists *)

Lemma filter_split_pred {A} (f g h : A -> bool) (l : list A) :
  (forall x, In x l -> f x = (g x && h x)%bool) ->
  List.filter f l = List.filter g (List.filter h l).
Proof.
  induction l as [|x l IH]; intros Hf; [reflexivity|].
  cbn [List.filter]. rewrite (Hf x (or_introl eq_refl)).
  rewrite IH by (intros y Hy; apply Hf; now right).
  destruct (h x); cbn [List.filter]; destruct (g x); reflexivity.
Qed.

Lemma existsb_eqb_In (n : string) (l : list string) :
  existsb (String.eqb n) l = true <-> In n l.
Proof.
  rewrite existsb_exists. split.
  - intros (m & Hm & Heq). apply String.eqb_eq in Heq. now subst.
  - intros Hn. exists n. split; [exact Hn | apply String.eqb_refl].
Qed.

Lemma existsb_eqb_snoc (n p : string) (l : list string) :
  existsb (String.eqb n) (l ++ [p])
  = (existsb (String.eqb n) l || String.eqb n p)%bool.
Proof. rewrite existsb_app. simpl. now rewrite orb_false_r. Qed.

(** ** The order of the peer candidates *)

Section PeerOrder.
Context {env : Collaborators}.

Lemma visitPeers_names deps (entries : Entries) :
  forall acc w l w',
    visitPeers deps entries acc w = (Ok l, w') ->
    map package l
    = map package acc
      ++ List.filter (unseen acc)
           (keepFirst (List.filter (installedName deps) (map fst entries))).
Proof.
  induction entries as [|[p v] rest IH]; intros acc w l w' Hrun.
  - injection Hrun as <- <-. simpl. now rewrite app_nil_r.
  - cbn [visitPeers] in Hrun.
    apply bind_Ok_inv in Hrun as (acc' & w1 & Hstep & Hrest).
    apply IH in Hrest. rewrite Hrest. clear Hrest IH.
    cbn [map fst List.filter]. unfold installedName at 2.
    destruct (visitPeer_cases deps acc p v w)
      as [[Hin Heq] | [(Hout & Hmiss & Heq)
                      | [(current & Hout & Hinst & Heq) | (_ & _ & Heq)]]];
      rewrite Heq in Hstep; [| | |discriminate].
    + injection Hstep as <- <-. f_equal.
      destruct (missing deps p); cbn [negb]; [reflexivity|].
      cbn [keepFirst List.filter].
      assert (Hseen : unseen acc p = false).
      { unfold unseen. apply negb_false_iff. now apply existsb_eqb_In. }
      rewrite Hseen. symmetry. rewrite <- filter_split_pred with (f := unseen acc);
        [reflexivity|].
      intros n _. destruct (unseen acc n) eqn:En; [|reflexivity].
      cbn [andb]. symmetry. apply negb_true_iff, String.eqb_neq.
      intros ->. congruence.
    + injection Hstep as <- <-. f_equal.
      now rewrite Hmiss.
    + destruct (compareVersions current (transformPeerVersion v)) as [z|e];
        [|discriminate].
      injection Hstep as <- <-.
      rewrite (missing_installed deps p current Hinst).
      cbn [negb keepFirst List.filter].
      assert (Hseen : unseen acc p = true).
      { unfold unseen. apply negb_true_iff.
        destruct (existsb (String.eqb p) (map package acc)) eqn:E;
          [now apply existsb_eqb_In in E | reflexivity]. }
      rewrite Hseen, map_app, <- app_assoc. f_equal. cbn [map app]. f_equal.
      apply filter_split_pred. intros n _. unfold unseen.
      rewrite map_app. cbn [map]. rewrite existsb_eqb_snoc.
      cbn [package peerCandidate]. now rewrite negb_orb.
Qed.

(** X1. The candidates a call of the peer resolver returns follow the
    iteration order of the peer mapping: their package names are the names
    of the entries whose package is installed, each at its first
    occurrence. *)
Theorem peer_candidates_in_entry_order name deps peers (entries : Entries)
        (w w' : World) (l : list UpgradeOption) :
  peerMapping name peers = Ok entries ->
  getPackagePeerDep name deps peers w = (Ok l, w') ->
  map package l
  = keepFirst (List.filter (fun p => negb (missing deps p)) (map fst entries)).
Proof.
  intros Hmap Hrun. rewrite getPackagePeerDep_eq, Hmap in Hrun.
  apply visitPeers_names in Hrun. rewrite Hrun. cbn [map app].
  unfold installedName.
  generalize (keepFirst (List.filter (fun p => negb (missing deps p))
                                     (map fst entries))).
  intros names. induction names as [|n names IH]; [reflexivity|].
  cbn [List.filter]. unfold unseen at 1. cbn. now rewrite IH.
Qed.

End PeerOrder.

(** ** What the peer resolver leaves of the world *)

Section ResolverEffects.
Context {env : Collaborators}.

Lemma visitPeers_frame deps (entries : Entries) :
  forall acc w r w',
    visitPeers deps entries acc w = (r, w') ->
    boxes w' = boxes w
    /\ exists added,
        warnings w' = warnings w ++ added
        /\ List.Forall (missingPeerWarning deps) added.
Proof.
  induction entries as [|[p v] rest IH]; intros acc w r w' Hrun.
  - injection Hrun as <- <-. split; [reflexivity|].
    exists []. now rewrite app_nil_r.
  - cbn [visitPeers] in Hrun. unfold bind in Hrun.
    destruct (visitPeer_cases deps acc p v w)
      as [[Hin Heq] | [(Hout & Hmiss & Heq)
                      | [(current & Hout & Hinst & Heq) | (_ & _ & Heq)]]];
      rewrite Heq in Hrun.
    + now apply IH in Hrun.
    + apply IH in Hrun as (Hb & added & Hw & Hall). simpl in Hb, Hw.
      split; [exact Hb|]. exists (missingPeerMessage p :: added).
      split; [now rewrite Hw, <- app_assoc|].
      constructor; [|exact Hall]. exists p. now split.
    + destruct (compareVersions current (transformPeerVersion v)) as [z|e].
      * now apply IH in Hrun.
      * injection Hrun as <- <-. split; [reflexivity|].
        exists []. now rewrite app_nil_r.
    + injection Hrun as <- <-. split; [reflexivity|].
      exists []. now rewrite app_nil_r.
Qed.

(** X2. Whatever way a call of the peer resolver ends, it has put nothing
    in the output boxes and has taken no warning away, and each warning it
    has added is the warning about a package that is not installed. *)
Theorem peer_resolver_only_warns name deps peers (w : World) :
  let w' := snd (getPackagePeerDep name deps peers w) in
  boxes w' = boxes w
  /\ exists added,
      warnings w' = warnings w ++ added
      /\ List.Forall (missingPeerWarning deps) added.
Proof.
  intros w'. subst w'. rewrite getPackagePeerDep_eq.
  destruct (peerMapping name peers) as [entries|e].
  - destruct (visitPeers deps entries [] w) as [r w'] eqn:Hrun.
    now apply visitPeers_frame in Hrun.
  - split; [reflexivity|]. exists []. now rewrite app_nil_r.
Qed.

Lemma visitPeers_names_from_entries deps (entries : Entries) w l w' :
  visitPeers deps entries [] w = (Ok l, w') ->
  forall p, In p (map package l) -> In p (map fst entries).
Proof.
  intros (new & -> & _ & Hnew)%visitPeers_Ok p (c & <- & Hc)%in_map_iff.
  destruct (Hnew c Hc) as [_ (pv & _ & _ & Hfirst & _)].
  apply firstEntry_In in Hfirst.
  now apply (in_map fst) in Hfirst.
Qed.

(** X3. A comparison that throws ends the call with that error at once:
    when the entries in front of an entry have been resolved to a list, and
    the comparison for that entry, the first under its name and of an
    installed package, throws, the call throws the same error, the world
    being as the entries in front have left it; no list is returned and the
    entries behind are not visited. *)
Theorem comparison_failure_aborts name deps peers (pre post : Entries)
        (p v current : string) (e : Error) (w w1 : World)
        (acc : list UpgradeOption) :
  peerMapping name peers = Ok (pre ++ (p, v) :: post) ->
  getPackagePeerDep name deps (Some pre) w = (Ok acc, w1) ->
  ~ In p (map fst pre) ->
  installedVersion deps p = Some current ->
  compareVersions current (transformPeerVersion v) = Throw e ->
  getPackagePeerDep name deps peers w = (Throw e, w1).
Proof.
  intros Hmap Hpre Hfresh Hinst Hthrow.
  rewrite getPackagePeerDep_eq in Hpre. cbn [peerMapping] in Hpre.
  rewrite getPackagePeerDep_eq, Hmap, visitPeers_app, Hpre.
  cbn [visitPeers].
  assert (Hout : ~ In p (map package acc)).
  { intros Hin. apply Hfresh.
    now apply (visitPeers_names_from_entries deps pre w acc w1 Hpre). }
  apply bind_Throw.
  now rewrite (visitPeer_installed deps acc p v w1 current Hout Hinst), Hthrow.
Qed.

End ResolverEffects.

(** ** What the renderer changes, and how its rows line up *)

Lemma measureOptions_package (l : list UpgradeOption) (m : OptionMaxLen) :
  len_package (fst (measureOptions m l))
  = Nat.max (len_package m)
            (max_list (map (fun o => String.length (package o)) l)).
Proof.
  revert m. induction l as [|o l IH]; intros m; simpl; [lia|].
  rewrite visitOption_eq.
  specialize (IH (widen m o)).
  destruct (measureOptions (widen m o) l) as [m2 rest]. simpl in *.
  rewrite IH. lia.
Qed.

Lemma string_app_assoc (a b c : string) : (a +:+ b) +:+ c = a +:+ b +:+ c.
Proof.
  induction a as [|x a IH]; [reflexivity|].
  change (String x ((a +:+ b) +:+ c) = String x (a +:+ b +:+ c)).
  now rewrite IH.
Qed.

Lemma length_spaces (n : nat) : String.length (spaces n) = n.
Proof. induction n as [|n IH]; simpl; [reflexivity | now rewrite IH]. Qed.

Lemma length_padEnd (s : string) (n : nat) :
  String.length (padEnd s n) = Nat.max (String.length s) n.
Proof. unfold padEnd. rewrite string_length_app, length_spaces. lia. Qed.

Section RendererProperties.
Context {env : Collaborators}.

(** X4. Rendering a list changes nothing of its candidates but their
    version, which loses its first caret: the list keeps its length and its
    order, and every candidate its package, its displayed target, its
    latest flag, its mode and its peer mapping, whether the list is rendered
    as the peer section or not. *)
Theorem getUpgradeVersion_changes_version_only (l : list UpgradeOption)
        (peer : bool) :
  Forall2 (fun o o' =>
             package o' = package o
             /\ version o' = stripCaret (version o)
             /\ latestVersion o' = latestVersion o
             /\ isLatest o' = isLatest o
             /\ versionMode o' = versionMode o
             /\ peerDependencies o' = peerDependencies o)
          l (snd (getUpgradeVersion l peer)).
Proof.
  rewrite getUpgradeVersion_eq. cbn [snd].
  induction l as [|o l IH]; constructor; [|exact IH].
  now repeat split.
Qed.

(** X5. The stale rows of a rendered list line up: in the row of every
    candidate the package column is as wide as the longest package of the
    list and seven more, and when the mode of the candidate is no longer
    than what the rewrite took off its version (an empty mode, or a mode of
    one character on a version that held a caret), the text in front of the
    arrow has the same length in every such row. *)
Theorem stale_rows_line_up (l : list UpgradeOption) (o : UpgradeOption) :
  In o l ->
  let m := fst (measureOptions (mkOptionMaxLen 0 0 0) l) in
  let o' := normalizeVersion o in
  staleRow m o'
  = "  "
    +:+ chalk_white (staleRowLead m o' +:+ "  ->  " +:+ versionMode o'
                     +:+ latestVersion o')
    +:+ DEFAULT_SPACE
  /\ String.length (padEnd (package o')
                           (len_package m + String.length DEFAULT_SPACE))
     = len_package m + 7
  /\ (String.length (versionMode o)
      <= String.length (version o) - String.length (stripCaret (version o)) ->
      String.length (staleRowLead m o') = len_package m + 14 + len_version m).
Proof.
  intros Ho m o'.
  assert (Hp : String.length (package o) <= len_package m).
  { unfold m. rewrite measureOptions_package. cbn [len_package].
    rewrite Nat.max_0_l. apply max_list_bound.
    apply (in_map (fun o => String.length (package o))), Ho. }
  assert (Hv : String.length (version o) <= len_version m).
  { unfold m. rewrite measureOptions_version. cbn [len_version].
    rewrite Nat.max_0_l. apply max_list_bound.
    apply (in_map (fun o => String.length (version o))), Ho. }
  split.
  { unfold staleRow, staleRowLead. now rewrite !string_app_assoc. }
  change (String.length DEFAULT_SPACE) with 7.
  split.
  - rewrite length_padEnd. cbn [package o' normalizeVersion setVersion]. lia.
  - intros Hmode. unfold staleRowLead.
    change (String.length DEFAULT_SPACE) with 7.
    rewrite !string_length_app, !length_padEnd, string_length_app.
    change (String.length DEFAULT_SPACE) with 7.
    cbn [package version versionMode o' normalizeVersion setVersion].
    pose proof (length_replaceChar "^" (version o)) as Hlen.
    fold (stripCaret (version o)) in Hlen. lia.
Qed.

Lemma join_empty_iff (rows : list string) :
  Forall (fun r => r <> "") rows ->
  join newline rows = "" <-> rows = [].
Proof.
  intros Hrows. split; [|now intros ->].
  destruct rows as [|x rows]; [reflexivity|].
  intros Hjoin. apply Forall_cons_1 in Hrows as [Hx _].
  now apply (join_cons_nonempty x rows) in Hx.
Qed.

(** X6. The text of a list rendered as the peer section is empty exactly
    when every candidate of the list is latest (the empty list too); the
    text of a list rendered as the component section is empty for the empty
    list only. *)
Theorem getUpgradeVersion_empty_text (l : list UpgradeOption) :
  (fst (getUpgradeVersion l true) = ""
   <-> List.Forall (fun o => isLatest o = true) l)
  /\ (fst (getUpgradeVersion l false) = "" <-> l = []).
Proof.
  assert (Hrows : forall peer,
             fst (getUpgradeVersion l peer) = ""
             <-> List.filter (shown peer) (map normalizeVersion l) = []).
  { intros peer. rewrite getUpgradeVersion_eq. cbn [fst].
    rewrite outputRows_eq, join_empty_iff.
    - split; [apply map_eq_nil | now intros ->].
    - apply List.Forall_forall. intros r (o & <- & _)%in_map_iff.
      apply renderRow_nonempty. }
  split; rewrite Hrows; clear Hrows.
  - induction l as [|o l IH]; [split; [constructor | reflexivity]|].
    cbn [map List.filter]. unfold shown at 1.
    rewrite isLatest_normalizeVersion. cbn [andb].
    destruct (isLatest o) eqn:E; cbn [negb].
    + rewrite IH. split; [now constructor | now inversion 1].
    + split; [discriminate|]. inversion 1; congruence.
  - destruct l as [|o l]; [now split|].
    cbn [map List.filter]. unfold shown at 1. cbn [andb negb].
    split; discriminate.
Qed.

End RendererProperties.

(** ** The fan-out, whatever its calls return *)

Section FanOut.
Context {env : Collaborators}.

Lemma getPackagePeerDep_resume_boxes deps (output : Result string) (w : World) :
  boxes (snd (getPackagePeerDep_resume deps output w)) = boxes w.
Proof.
  unfold getPackagePeerDep_resume, bind, liftR.
  destruct output as [text|e]; [|reflexivity].
  destruct (JSON_parse text) as [parsed|e]; [|reflexivity].
  rewrite resolvePeers_eq.
  destruct (visitPeers deps (entriesOrEmpty parsed) [] w) as [r w'] eqn:Hrun.
  now apply visitPeers_frame in Hrun.
Qed.

Lemma getPackagePeerDep_boxes name deps peers (w : World) :
  boxes (snd (getPackagePeerDep name deps peers w)) = boxes w.
Proof.
  destruct peers as [entries|]; [|apply getPackagePeerDep_resume_boxes].
  cbn [getPackagePeerDep]. rewrite resolvePeers_eq.
  destruct (visitPeers deps entries [] w) as [r w'] eqn:Hrun.
  now apply visitPeers_frame in Hrun.
Qed.

Lemma startAll_boxes deps (opts : list UpgradeOption) (w : World) :
  boxes (snd (startAll deps opts w)) = boxes w.
Proof.
  revert w. induction opts as [|o opts IH]; intros w; [reflexivity|].
  cbn [startAll]. unfold startPeerDep.
  destruct (peerDependencies o) as [entries|].
  - pose proof (getPackagePeerDep_boxes (package o) deps (Some entries) w) as Hb.
    cbn [getPackagePeerDep] in Hb.
    destruct (resolvePeers deps entries w) as [r w1]. cbn [snd] in Hb.
    specialize (IH w1). destruct (startAll deps opts w1) as [ss w2].
    cbn [snd] in *. congruence.
  - specialize (IH w). now destruct (startAll deps opts w) as [ss w2].
Qed.

Lemma resumeAll_boxes deps (started : list Started) (w : World) :
  boxes (snd (resumeAll deps started w)) = boxes w.
Proof.
  revert w. induction started as [|[r|output] started IH]; intros w;
    [reflexivity| |]; cbn [resumeAll].
  - specialize (IH w). now destruct (resumeAll deps started w) as [rs w'].
  - pose proof (getPackagePeerDep_resume_boxes deps output w) as Hb.
    destruct (getPackagePeerDep_resume deps output w) as [r w1]. cbn [snd] in Hb.
    specialize (IH w1). destruct (resumeAll deps started w1) as [rs w2].
    cbn [snd] in *. congruence.
Qed.

Lemma promiseAllPeerDeps_boxes deps (opts : list UpgradeOption) (w : World) :
  boxes (snd (promiseAllPeerDeps deps opts w)) = boxes w.
Proof.
  unfold promiseAllPeerDeps.
  pose proof (startAll_boxes deps opts w) as H1.
  destruct (startAll deps opts w) as [started w1]. cbn [snd] in H1.
  pose proof (resumeAll_boxes deps started w1) as H2.
  destruct (resumeAll deps started w1) as [results w2]. cbn [snd] in H2.
  destruct (rejections false results ++ rejections true results);
    cbn [snd]; congruence.
Qed.

Lemma startAll_resumesAs deps (opts : list UpgradeOption) (w0 : World) :
  forall w,
    Forall2 (resumesAs deps) (fst (startAll deps opts w))
            (map (peerOutcome deps w0) opts).
Proof.
  induction opts as [|o opts IH]; intros w; [constructor|].
  cbn [startAll map].
  destruct (startPeerDep deps o w) as [s w1] eqn:Hs.
  specialize (IH w1). destruct (startAll deps opts w1) as [ss w2].
  constructor; [|exact IH].
  unfold startPeerDep in Hs. unfold peerOutcome.
  destruct (peerDependencies o) as [entries|].
  - pose proof (getPackagePeerDep_result (package o) deps (Some entries) w w0)
      as Hres.
    cbn [getPackagePeerDep] in Hres |- *.
    destruct (resolvePeers deps entries w) as [r w']. injection Hs as <- _.
    exact Hres.
  - injection Hs as <- _. intros w'.
    apply (getPackagePeerDep_result (package o) deps None w' w0).
Qed.

Lemma resumeAll_outcomes deps (started : list Started)
      (rs : list (Result (list UpgradeOption))) :
  Forall2 (resumesAs deps) started rs ->
  forall w, map snd (fst (resumeAll deps started w)) = rs.
Proof.
  induction 1 as [|s r started rs Hs _ IH]; intros w; [reflexivity|].
  cbn [resumeAll]. destruct s as [r'|output]; simpl in Hs.
  - specialize (IH w). destruct (resumeAll deps started w) as [rs' w'].
    simpl in *. now rewrite Hs, IH.
  - specialize (Hs w).
    destruct (getPackagePeerDep_resume deps output w) as [r' w1].
    specialize (IH w1). destruct (resumeAll deps started w1) as [rs' w2].
    simpl in *. now rewrite Hs, IH.
Qed.

Lemma rejections_In (b : bool) (e : Error)
      (results : list (bool * Result (list UpgradeOption))) :
  In e (rejections b results) -> In (Throw e) (map snd results).
Proof.
  induction results as [|[b' [v|e']] results IH]; [contradiction| |];
    cbn [rejections map snd].
  - intros He. right. now apply IH.
  - destruct (Bool.eqb b' b); [intros [->|He] | intros He];
      [now left | right; now apply IH | right; now apply IH].
Qed.

Lemma rejections_none (results : list (bool * Result (list UpgradeOption))) :
  rejections false results ++ rejections true results = [] ->
  map snd results = map Ok (fulfilled results).
Proof.
  intros [Hf Ht]%app_eq_nil.
  induction results as [|[b [v|e]] results IH]; [reflexivity| |].
  - cbn [rejections] in Hf, Ht. cbn [map snd fulfilled]. now rewrite IH.
  - cbn [rejections] in Hf, Ht. destruct b; simpl in *; discriminate.
Qed.

(** The fan-out joined: the lists of all the calls when all return, and
    otherwise the error of one of the calls. *)
Lemma promiseAllPeerDeps_outcome deps (opts : list UpgradeOption)
      (w w0 : World) :
  match fst (promiseAllPeerDeps deps opts w) with
  | Ok peerLists => map (peerOutcome deps w0) opts = map Ok peerLists
  | Throw e => In (Throw e) (map (peerOutcome deps w0) opts)
  end.
Proof.
  unfold promiseAllPeerDeps.
  pose proof (startAll_resumesAs deps opts w0 w) as Hstarted.
  destruct (startAll deps opts w) as [started w1]. cbn [fst] in Hstarted.
  pose proof (resumeAll_outcomes deps started _ Hstarted w1) as Hres.
  destruct (resumeAll deps started w1) as [results w2]. cbn [fst] in Hres.
  rewrite <- Hres.
  destruct (rejections false results ++ rejections true results) as [|e es] eqn:E;
    cbn [fst].
  - now apply rejections_none.
  - assert (He : In e (rejections false results ++ rejections true results))
      by (rewrite E; now left).
    apply in_app_iff in He as [He|He]; now apply rejections_In in He.
Qed.

Lemma outputDependencies_run (outputList peerDepList : list UpgradeOption)
      (w : World) :
  outputDependencies outputList peerDepList w
  = (Ok (map normalizeVersion outputList, map normalizeVersion peerDepList),
     mkWorld (warnings w)
             ((boxes w ++ [componentsBox (fst (getUpgradeVersion outputList false))])
              ++ [peerDependenciesBox (fst (getUpgradeVersion peerDepList true))])).
Proof.
  unfold outputDependencies. rewrite !getUpgradeVersion_eq. reflexivity.
Qed.

(** In multi-component mode the engine is the fan-out followed by the
    report. *)
Lemma upgrade_multi_run (options : Upgrade) (w : World) :
  isNextUIAll options = false ->
  upgrade options w
  = match promiseAllPeerDeps (allDependencies options)
                             (upgradeOptionList options) w with
    | (Ok peerLists, w1) =>
        let outputList :=
          map transformUpgradeOption (upgradeOptionList options) in
        let peerDepList := List.concat peerLists in
        (Ok (List.filter stale
               (map normalizeVersion (outputList ++ peerDepList))),
         mkWorld (warnings w1)
           ((boxes w1
             ++ [componentsBox (fst (getUpgradeVersion outputList false))])
            ++ [peerDependenciesBox
                  (fst (getUpgradeVersion peerDepList true))]))
    | (Throw e, w1) => (Throw e, w1)
    end.
Proof.
  intros Hmode. unfold upgrade. rewrite Hmode. unfold bind at 1.
  destruct (promiseAllPeerDeps _ _ w) as [[peerLists|e] w1]; [|reflexivity].
  unfold bind. rewrite outputDependencies_run. unfold ret.
  cbn zeta. now rewrite map_app.
Qed.

(** X7. In multi-component mode the engine throws exactly when the peer
    resolution of some primary candidate does, and the error it throws is
    the error of such a resolution; it then has put nothing in the output
    boxes. *)
Theorem upgrade_multi_throws (options : Upgrade) (w : World) :
  isNextUIAll options = false ->
  let failing (e : Error) :=
    exists o, In o (upgradeOptionList options)
              /\ fst (getPackagePeerDep (package o) (allDependencies options)
                                        (peerDependencies o) w) = Throw e in
  (forall e, fst (upgrade options w) = Throw e ->
             failing e /\ boxes (snd (upgrade options w)) = boxes w)
  /\ ((exists e, failing e) -> exists e, fst (upgrade options w) = Throw e).
Proof.
  intros Hmode failing. rewrite (upgrade_multi_run options w Hmode).
  pose proof (promiseAllPeerDeps_outcome (allDependencies options)
                (upgradeOptionList options) w w) as Hout.
  pose proof (promiseAllPeerDeps_boxes (allDependencies options)
                (upgradeOptionList options) w) as Hboxes.
  destruct (promiseAllPeerDeps _ _ w) as [[peerLists|e0] w1];
    cbn [fst snd] in *.
  - split; [discriminate|]. intros (e & o & Ho & Hthrow). exfalso.
    apply (in_map (peerOutcome (allDependencies options) w)) in Ho.
    unfold peerOutcome at 1 in Ho. rewrite Hthrow, Hout in Ho.
    apply in_map_iff in Ho as (l & Hl & _). discriminate.
  - split; [|intros _; now exists e0].
    intros e [= <-]. split; [|exact Hboxes].
    apply in_map_iff in Hout as (o & Ho & Hin). now exists o.
Qed.

(** X8. Whenever the engine returns, in either mode, it has added exactly
    two boxes to the output, the blue box of the components and then the
    yellow box of the peer dependencies, even when a text is empty;
    whenever it throws, it has added none. *)
Theorem upgrade_boxes (options : Upgrade) (w : World) :
  match upgrade options w with
  | (Ok _, w') =>
      exists components peers,
        boxes w' = boxes w ++ [componentsBox components;
                               peerDependenciesBox peers]
  | (Throw _, w') => boxes w' = boxes w
  end.
Proof.
  destruct (isNextUIAll options) eqn:Hmode.
  - unfold upgrade. rewrite Hmode. unfold bind at 1. unfold liftR at 1.
    destruct (compareVersions _ _) as [z|e]; [|reflexivity].
    unfold bind at 1.
    pose proof (getPackagePeerDep_boxes NEXT_UI (allDependencies options) None w)
      as H1.
    destruct (getPackagePeerDep NEXT_UI _ None w) as [[l1|e] w1];
      cbn [snd] in H1; [|exact H1].
    unfold bind at 1.
    pose proof (getPackagePeerDep_boxes THEME_UI (allDependencies options) None w1)
      as H2.
    destruct (getPackagePeerDep THEME_UI _ None w1) as [[l2|e] w2];
      cbn [snd] in H2; [|congruence].
    unfold bind. rewrite outputDependencies_run. unfold ret.
    eexists _, _. cbn [boxes]. rewrite H2, H1, <- app_assoc. reflexivity.
  - rewrite (upgrade_multi_run options w Hmode).
    pose proof (promiseAllPeerDeps_boxes (allDependencies options)
                  (upgradeOptionList options) w) as Hboxes.
    destruct (promiseAllPeerDeps _ _ w) as [[peerLists|e] w1];
      cbn [snd] in Hboxes; [|exact Hboxes].
    eexists _, _. cbn [boxes]. rewrite Hboxes, <- app_assoc. reflexivity.
Qed.

Lemma filter_stale_nil (l : list UpgradeOption) :
  List.filter stale l = [] <-> List.Forall (fun c => isLatest c = true) l.
Proof.
  induction l as [|o l IH]; [split; [constructor | reflexivity]|].
  cbn [List.filter]. unfold stale at 1.
  destruct (isLatest o) eqn:E; cbn [negb].
  - rewrite IH. split; [now constructor | now inversion 1].
  - split; [discriminate|]. inversion 1; congruence.
Qed.

(** X9. In multi-component mode, when the peer resolution of each primary
    candidate returns, the engine returns the empty list, so that nothing
    is to be installed, exactly when every primary candidate and every peer
    candidate is latest. *)
Theorem upgrade_multi_nothing_to_install (options : Upgrade)
        (peerLists : list (list UpgradeOption)) (w : World) :
  isNextUIAll options = false ->
  Forall2 (fun o l =>
             fst (getPackagePeerDep (package o) (allDependencies options)
                                    (peerDependencies o) w) = Ok l)
          (upgradeOptionList options) peerLists ->
  fst (upgrade options w) = Ok []
  <-> List.Forall (fun c => isLatest c = true) (upgradeOptionList options)
      /\ List.Forall (fun c => isLatest c = true) (List.concat peerLists).
Proof.
  intros Hmode Hall. rewrite (upgrade_multi_run options w Hmode).
  pose proof (promiseAllPeerDeps_outcome (allDependencies options)
                (upgradeOptionList options) w w) as Hout.
  assert (Hlists : map (peerOutcome (allDependencies options) w)
                       (upgradeOptionList options) = map Ok peerLists).
  { clear Hout. induction Hall as [|o l opts ls Ho _ IH]; [reflexivity|].
    cbn [map]. unfold peerOutcome at 1. now rewrite Ho, IH. }
  rewrite Hlists in Hout.
  destruct (promiseAllPeerDeps _ _ w) as [[peerLists'|e] w1]; cbn [fst] in *.
  - assert (peerLists' = peerLists) as ->.
    { clear -Hout. revert peerLists' Hout.
      induction peerLists as [|l ls IH]; intros [|l' ls'] Heq;
        try discriminate; [reflexivity|].
      injection Heq as -> Heq. f_equal. now apply IH. }
    cbn zeta. rewrite filter_stale_normalizeVersion.
    split.
    + intros [= Hnil]. apply map_eq_nil in Hnil.
      apply filter_stale_nil, List.Forall_app in Hnil as [Hprim Hpeers].
      split; [|exact Hpeers].
      apply List.Forall_forall. intros c Hc.
      apply (in_map transformUpgradeOption) in Hc.
      rewrite List.Forall_forall in Hprim. exact (Hprim _ Hc).
    + intros [Hprim Hpeers]. f_equal.
      replace (List.filter stale _) with (@nil UpgradeOption); [reflexivity|].
      symmetry. apply filter_stale_nil, List.Forall_app. split; [|exact Hpeers].
      apply List.Forall_forall. intros c (o & <- & Ho)%in_map_iff.
      rewrite List.Forall_forall in Hprim. exact (Hprim _ Ho).
  - apply in_map_iff in Hout as (l & Hl & _). discriminate.
Qed.

End FanOut.

(** * Properties of the upgrade action *)

Lemma string_app_empty_r (s : string) : s +:+ "" = s.
Proof.
  induction s as [|a s IH]; [reflexivity|].
  change (String a (s +:+ "") = String a s). now rewrite IH.
Qed.

Section ActionProperties.
Context {env : Collaborators} {actionEnv : ActionCollaborators}.

Lemma concat_empty_cons (x : string) (l : list string) :
  String.concat "" (x :: l) = x +:+ String.concat "" l.
Proof.
  destruct l as [|y l]; [cbn; now rewrite string_app_empty_r | reflexivity].
Qed.

Lemma reduceInstall_from (result : list UpgradeOption) :
  forall acc index,
    reduceInstall acc (S index) result
    = acc +:+ String.concat "" (map (fun c => " " +:+ installItem c) result).
Proof.
  induction result as [|c rest IH]; intros acc index.
  - cbn [reduceInstall map String.concat]. now rewrite string_app_empty_r.
  - cbn [reduceInstall map Nat.eqb]. rewrite IH, concat_empty_cons.
    unfold installItem. now rewrite ?string_app_assoc.
Qed.

Lemma join_space_cons (x : string) (l : list string) :
  join " " (x :: l) = x +:+ String.concat "" (map (fun y => " " +:+ y) l).
Proof.
  revert x. induction l as [|y l IH]; intros x.
  - cbn. now rewrite string_app_empty_r.
  - change (join " " (x :: y :: l)) with (x +:+ " " +:+ join " " (y :: l)).
    rewrite IH. cbn [map]. rewrite concat_empty_cons.
    now rewrite ?string_app_assoc.
Qed.

Lemma reduceInstall_join (result : list UpgradeOption) :
  reduceInstall "" 0 result = join " " (map installItem result).
Proof.
  destruct result as [|c rest]; [reflexivity|].
  cbn [reduceInstall Nat.eqb map]. rewrite reduceInstall_from, join_space_cons.
  rewrite map_map. reflexivity.
Qed.

(** X11. The arguments of the install command, built by a reduction with
    a blank in front of every candidate but the first, are the candidates
    joined by blanks, each as its package, an at sign and its target with
    the colours taken off; for the empty list they are the empty string. *)
Theorem install_arguments_joined (result : list UpgradeOption) :
  reduceInstall "" 0 result = join " " (map installItem result)
  /\ reduceInstall "" 0 [] = "".
Proof. split; [apply reduceInstall_join | reflexivity]. Qed.

Lemma filter_notIgnored_nil (result : list UpgradeOption) :
  List.filter (notIgnored []) result = result.
Proof.
  induction result as [|c rest IH]; [reflexivity|].
  cbn [List.filter]. unfold notIgnored at 1. cbn. now rewrite IH.
Qed.

(** The body of [if (result.length)], run. *)
Lemma installResult_run (result : list UpgradeOption) (aw : ActionWorld) :
  let proceedQ := "Would you like to proceed with the upgrade?" in
  let ignoreQ := "Do you want to ignore some package to upgrade?" in
  let whichQ := "Which components do you want to ignore?" in
  let isExecute := getSelect proceedQ proceedChoices in
  let isNeedRemove := getSelect ignoreQ ignoreChoices in
  let asked :=
    Asked proceedQ
    :: (if isExecute then []
        else Asked ignoreQ :: (if isNeedRemove then [Asked whichQ] else [])) in
  let ignoreList :=
    if isExecute then []
    else if isNeedRemove then ignoredWhenAsked result else [] in
  let kept := List.filter (notIgnored ignoreList) result in
  installResult result aw
  = (match exec (installCommand kept) with
     | Ok _ => Ok tt
     | Throw e => Throw e
     end,
     mkActionWorld (helperWorld aw)
                   (events aw ++ asked ++ [Executed (installCommand kept)])).
Proof.
  cbv zeta. unfold installResult, askIgnoreList, ignoredWhenAsked, installCommand.
  rewrite <- !reduceInstall_join.
  unfold abind, emit, aret, liftResult. cbn [helperWorld events].
  destruct (getSelect "Would you like to proceed with the upgrade?" _);
    [|destruct (getSelect "Do you want to ignore some package to upgrade?" _)];
    cbn [helperWorld events];
    match goal with
    | |- context [exec ?c] => destruct (exec c)
    end;
    rewrite <- ?app_assoc; reflexivity.
Qed.

(** X12. When the engine has returned a list that is not empty, the
    install command is run, once, whatever the user answers: it installs the
    candidates of the list whose package is not in the list to ignore, in
    their order. That list is what the user chooses when asked, after having
    declined to proceed and having asked to ignore some packages, and it is
    empty otherwise: in particular, when the user declines both, every
    candidate is installed. When the command returns the action logs its
    success and exits with code 0; when it throws, the action throws and
    logs nothing more. *)
Theorem install_runs_whatever_the_answers (result : list UpgradeOption)
        (aw : ActionWorld) :
  result <> [] ->
  let proceedQ := "Would you like to proceed with the upgrade?" in
  let ignoreQ := "Do you want to ignore some package to upgrade?" in
  let whichQ := "Which components do you want to ignore?" in
  let proceed := getSelect proceedQ proceedChoices in
  let ignore := getSelect ignoreQ ignoreChoices in
  let asked :=
    Asked proceedQ
    :: (if proceed then []
        else Asked ignoreQ :: (if ignore then [Asked whichQ] else [])) in
  let ignoreList :=
    if proceed then []
    else if ignore then ignoredWhenAsked result else [] in
  let kept := List.filter (notIgnored ignoreList) result in
  concludeUpgrade result aw
  = (match exec (installCommand kept) with
     | Ok _ => Ok (ProcessExit 0)
     | Throw e => Throw e
     end,
     mkActionWorld
       (helperWorld aw)
       (events aw ++ asked
        ++ Executed (installCommand kept)
           :: match exec (installCommand kept) with
              | Ok _ => farewell
              | Throw _ => []
              end))
  /\ (forall r, In r kept <-> In r result /\ ~ In (package r) ignoreList)
  /\ (ignore = false -> kept = result).
Proof.
  intros Hresult proceedQ ignoreQ whichQ proceed ignore asked ignoreList kept.
  pose proof (installResult_run result aw) as Hrun. cbv zeta in Hrun.
  fold proceedQ ignoreQ whichQ in Hrun. fold proceed ignore in Hrun.
  fold asked ignoreList in Hrun. fold kept in Hrun.
  split; [|split].
  - unfold concludeUpgrade. destruct result as [|r rest]; [congruence|].
    unfold abind at 1. rewrite Hrun.
    destruct (exec (installCommand kept)).
    + unfold abind, emit, aret, farewell. cbn [helperWorld events].
      rewrite <- !app_assoc. reflexivity.
    + reflexivity.
  - intros r. unfold kept. rewrite filter_In. unfold notIgnored.
    rewrite negb_true_iff.
    assert (Hin : existsb (fun ignore0 => String.eqb (package r) ignore0)
                          ignoreList = true
                  <-> In (package r) ignoreList).
    { rewrite existsb_exists. split.
      - intros (q & Hq & Heq). apply String.eqb_eq in Heq. now subst.
      - intros Hq. exists (package r). split; [exact Hq | apply String.eqb_refl]. }
    destruct (existsb _ ignoreList); intuition congruence.
  - intros Hno. unfold kept, ignoreList. rewrite Hno.
    destruct proceed; apply filter_notIgnored_nil.
Qed.

Lemma transformAll_acc (cs : list Component) :
  forall acc l,
    transformAll cs acc = Ok l ->
    exists new,
      l = acc ++ new
      /\ Forall2 (fun c tc =>
                    exists latest z,
                      latestVersionOf c = Ok latest
                      /\ compareVersions (componentVersion c) latest = Ok z
                      /\ tc = transformComponent c latest z)
                 cs new.
Proof.
  induction cs as [|c cs IH]; intros acc l Hrun.
  - injection Hrun as <-. exists []. now rewrite app_nil_r.
  - cbn [transformAll] in Hrun.
    destruct (latestVersionOf c) as [latest|e] eqn:Hlatest; [|discriminate].
    destruct (compareVersions (componentVersion c) latest) as [z|e] eqn:Hz;
      [|discriminate].
    apply IH in Hrun as (new & -> & Hnew).
    exists (transformComponent c latest z :: new).
    split; [now rewrite <- app_assoc|].
    constructor; [|exact Hnew]. now exists latest, z.
Qed.

(** X13. A list of components that the loop of the action has gone
    through without an error is classified one for one and in order: each
    candidate keeps the package, the version, the mode and the peer mapping
    of its component, its target is the version the store holds for the name
    of the component when the store holds one, and otherwise the latest
    version looked up for the package, and it is latest exactly when the
    comparison of its version with that target is at least zero. *)
Theorem components_classified (cs : list Component) (tcs : list UpgradeOption) :
  transformAll cs [] = Ok tcs ->
  Forall2 (fun c tc =>
             package tc = componentPackage c
             /\ version tc = componentVersion c
             /\ versionMode tc = componentVersionMode c
             /\ peerDependencies tc = componentPeerDependencies c
             /\ (forall entry,
                    nextUIComponentsMap !! componentName c = Some entry ->
                    storeVersion entry <> "" ->
                    latestVersion tc = storeVersion entry)
             /\ ((nextUIComponentsMap !! componentName c = None
                  \/ exists entry,
                      nextUIComponentsMap !! componentName c = Some entry
                      /\ storeVersion entry = "") ->
                 getLatestVersion (componentPackage c) = Ok (latestVersion tc))
             /\ exists z,
                 compareVersions (componentVersion c) (latestVersion tc) = Ok z
                 /\ (isLatest tc = true <-> (0 <= z)%Z))
          cs tcs.
Proof.
  intros (new & -> & Hnew)%transformAll_acc. cbn [app].
  induction Hnew as [|c tc cs new (latest & z & Hlatest & Hz & ->) _ IH];
    constructor; [|exact IH].
  cbn [transformComponent package version versionMode peerDependencies
       latestVersion isLatest].
  repeat split; try reflexivity.
  - intros entry Hentry Hknown. unfold latestVersionOf in Hlatest.
    rewrite Hentry in Hlatest.
    destruct (storeVersion entry); [congruence|]. now injection Hlatest.
  - intros [Hnone | (entry & Hentry & Hempty)]; unfold latestVersionOf in Hlatest.
    + now rewrite Hnone in Hlatest.
    + now rewrite Hentry, Hempty in Hlatest.
  - exists z. split; [exact Hz | apply Z.leb_le].
Qed.

Lemma transformAll_packages (cs : list Component) (tcs : list UpgradeOption) :
  transformAll cs [] = Ok tcs -> map package tcs = map componentPackage cs.
Proof.
  intros (new & -> & Hnew)%transformAll_acc. cbn [app].
  induction Hnew as [|c tc cs new (latest & z & _ & _ & ->) _ IH];
    [reflexivity|].
  cbn [map]. now rewrite IH.
Qed.

Lemma chosenUpgradeOptions_all (cs : list Component)
      (tcs : list UpgradeOption) :
  transformAll cs [] = Ok tcs ->
  (forall c, In c cs -> toPackage (componentPackage c) = componentPackage c) ->
  chosenUpgradeOptions (map toPackage (map componentPackage cs)) tcs = tcs.
Proof.
  intros Hrun Hsame.
  assert (Hnames : map toPackage (map componentPackage cs) = map package tcs).
  { rewrite (transformAll_packages cs tcs Hrun), map_map.
    apply map_ext_in. intros c Hc. now apply Hsame. }
  rewrite Hnames. unfold chosenUpgradeOptions.
  apply forallb_filter_id, forallb_forall. intros tc Htc.
  apply existsb_eqb_In. now apply in_map.
Qed.

(** X14. With the option [all], every installed component is handed to
    the engine, whatever names were given: once the components are
    classified, and when none of their packages is a name of the store that
    stands for another package, the action is the call of the engine on all
    the classified components, in their order, followed by what the action
    does with the result of the engine. *)
Theorem all_selects_every_component (components : list string)
        (options : UpgradeActionOptions) (aw : ActionWorld)
        (deps : Dependencies) (cs : list Component)
        (tcs : list UpgradeOption) :
  getPackageInfo (default (resolver "package.json") (packagePath options))
  = (deps, cs) ->
  transformAll cs [] = Ok tcs ->
  tcs <> [] \/ missing deps NEXT_UI = false ->
  default false (all options) = true ->
  (forall c, In c cs -> toPackage (componentPackage c) = componentPackage c) ->
  upgradeAction components options aw
  = (result <~ liftHelper
                 (upgrade (mkUpgrade (negb (missing deps NEXT_UI)) deps tcs)) ;;
     concludeUpgrade result) aw.
Proof.
  intros Hinfo Hrun Hsome Hall Hsame.
  unfold upgradeAction. rewrite Hinfo. cbv zeta.
  unfold abind at 1. unfold liftResult at 1. rewrite Hrun, Hall.
  assert (Hgo : (selected <~ selectComponents true components cs tcs ;;
                 match selected with
                 | Some components0 =>
                     result <~ liftHelper
                                 (upgrade
                                    (mkUpgrade (negb (missing deps NEXT_UI)) deps
                                       (chosenUpgradeOptions
                                          (map toPackage components0) tcs))) ;;
                     concludeUpgrade result
                 | None => aret Returned
                 end) aw
                = (result <~ liftHelper
                               (upgrade (mkUpgrade (negb (missing deps NEXT_UI))
                                                   deps tcs)) ;;
                   concludeUpgrade result) aw).
  { unfold selectComponents. unfold abind at 1. unfold aret at 1.
    now rewrite (chosenUpgradeOptions_all cs tcs Hrun Hsame). }
  destruct tcs as [|tc tcs']; [|exact Hgo].
  destruct Hsome as [Habs|Hnext]; [congruence|].
  rewrite Hnext in Hgo |- *. exact Hgo.
Qed.

(** The engine in umbrella mode when the umbrella package is latest. *)
Lemma upgrade_umbrella_latest (deps : Dependencies)
      (opts : list UpgradeOption) (w : World) (z : Z)
      (l1 l2 : list UpgradeOption) :
  compareVersions (currentVersion (getVersionAndMode deps NEXT_UI))
                  store_latestVersion = Ok z ->
  (0 <= z)%Z ->
  fst (getPackagePeerDep NEXT_UI deps None w) = Ok l1 ->
  fst (getPackagePeerDep THEME_UI deps None w) = Ok l2 ->
  exists w', upgrade (mkUpgrade true deps opts) w = (Ok [], w').
Proof.
  intros Hz Hlatest H1 H2. unfold upgrade. cbn [isNextUIAll allDependencies].
  unfold bind at 1. unfold liftR at 1. rewrite Hz.
  destruct (getPackagePeerDep NEXT_UI deps None w) as [r1 w1] eqn:E1.
  cbn [fst] in H1. subst r1. rewrite (bind_Ok _ _ _ _ _ E1).
  rewrite (getPackagePeerDep_result THEME_UI deps None w w1) in H2.
  destruct (getPackagePeerDep THEME_UI deps None w1) as [r2 w2] eqn:E2.
  cbn [fst] in H2. subst r2. rewrite (bind_Ok _ _ _ _ _ E2).
  unfold bind. rewrite outputDependencies_run. unfold ret.
  apply Z.leb_le in Hlatest. rewrite Hlatest. now eexists.
Qed.

(** X15. With the umbrella package installed and latest, the action
    installs nothing, even when peers are stale: once the components are
    classified and chosen and the peers of the umbrella and of the theme
    package are resolved, the action runs no command, logs its success and
    exits with code 0, having asked at most which components to upgrade. *)
Theorem latest_umbrella_installs_nothing (components : list string)
        (options : UpgradeActionOptions) (aw : ActionWorld)
        (deps : Dependencies) (cs : list Component) (tcs : list UpgradeOption)
        (z : Z) (l1 l2 : list UpgradeOption) :
  getPackageInfo (default (resolver "package.json") (packagePath options))
  = (deps, cs) ->
  transformAll cs [] = Ok tcs ->
  missing deps NEXT_UI = false ->
  compareVersions (currentVersion (getVersionAndMode deps NEXT_UI))
                  store_latestVersion = Ok z ->
  (0 <= z)%Z ->
  fst (getPackagePeerDep NEXT_UI deps None (helperWorld aw)) = Ok l1 ->
  fst (getPackagePeerDep THEME_UI deps None (helperWorld aw)) = Ok l2 ->
  default false (all options) = true
  \/ components = []
  \/ checkIllegalComponents components = true ->
  exists asked w',
    upgradeAction components options aw
    = (Ok (ProcessExit 0), mkActionWorld w' (events aw ++ asked ++ farewell))
    /\ (asked = [] \/ asked = [Asked "Select the components to upgrade"]).
Proof.
  intros Hinfo Hrun Humbrella Hz Hlatest H1 H2 Hselect.
  unfold upgradeAction. rewrite Hinfo. cbv zeta.
  unfold abind at 1. unfold liftResult at 1. rewrite Hrun, Humbrella.
  cbn [negb].
  assert (Hgo : forall (chosen : list string) (aw1 : ActionWorld)
                       (asked : list Event),
             helperWorld aw1 = helperWorld aw ->
             events aw1 = events aw ++ asked ->
             exists w',
               (result <~ liftHelper
                            (upgrade
                               (mkUpgrade true deps
                                  (chosenUpgradeOptions (map toPackage chosen)
                                                        tcs))) ;;
                concludeUpgrade result) aw1
               = (Ok (ProcessExit 0),
                  mkActionWorld w' (events aw ++ asked ++ farewell))).
  { intros chosen aw1 asked Hw He.
    rewrite <- Hw in H1, H2.
    destruct (upgrade_umbrella_latest deps
                (chosenUpgradeOptions (map toPackage chosen) tcs)
                (helperWorld aw1) z l1 l2 Hz Hlatest H1 H2) as (w' & Hup).
    exists w'. unfold abind at 1. unfold liftHelper. rewrite Hup.
    unfold concludeUpgrade, abind, emit, aret, farewell.
    cbn [helperWorld events]. rewrite He, <- !app_assoc. reflexivity. }
  assert (Hsel : exists chosen aw1 asked,
             selectComponents (default false (all options)) components cs tcs aw
             = (Ok (Some chosen), aw1)
             /\ helperWorld aw1 = helperWorld aw
             /\ events aw1 = events aw ++ asked
             /\ (asked = [] \/ asked = [Asked "Select the components to upgrade"])).
  { unfold selectComponents.
    destruct (default false (all options)) eqn:Hall.
    - eexists _, aw, []. rewrite app_nil_r. now repeat split; try left.
    - destruct components as [|c components].
      + eexists _, _, [Asked "Select the components to upgrade"].
        unfold abind, emit, aret. cbn [helperWorld events].
        repeat split; try reflexivity. now right.
      + destruct Hselect as [Habs|[Habs|Hlegal]]; try discriminate.
        rewrite Hlegal. eexists _, aw, []. rewrite app_nil_r.
        now repeat split; try left. }
  destruct Hsel as (chosen & aw1 & asked & Hsel & Hw & He & Hasked).
  destruct (Hgo chosen aw1 asked Hw He) as (w' & Hfinal).
  exists asked, w'. split; [|exact Hasked].
  destruct tcs as [|tc tcs']; unfold abind at 1; rewrite Hsel; exact Hfinal.
Qed.

(** X10. The action returns, without asking, running or resolving
    anything and without exiting the process, in two cases: when neither a
    component nor the umbrella package is installed, after logging one error
    that names the manifest; and when component names are given without the
    option [all] and refused by the check, with nothing logged by the
    action itself. *)
Theorem upgradeAction_returns_early (components : list string)
        (options : UpgradeActionOptions) (aw : ActionWorld)
        (deps : Dependencies) (cs : list Component) (tcs : list UpgradeOption) :
  let path := default (resolver "package.json") (packagePath options) in
  getPackageInfo path = (deps, cs) ->
  transformAll cs [] = Ok tcs ->
  (tcs = [] -> missing deps NEXT_UI = true ->
   upgradeAction components options aw
   = (Ok Returned,
      mkActionWorld
        (helperWorld aw)
        (events aw
         ++ [LoggedPrefix "error"
               ("No NextUI components detected in your package.json at: "
                +:+ path)])))
  /\ (tcs <> [] \/ missing deps NEXT_UI = false ->
      default false (all options) = false ->
      components <> [] ->
      checkIllegalComponents components = false ->
      upgradeAction components options aw = (Ok Returned, aw)).
Proof.
  intros path Hinfo Hrun. unfold upgradeAction. fold path. rewrite Hinfo.
  cbv zeta. unfold abind at 1 3. unfold liftResult. rewrite Hrun.
  split.
  - intros -> ->. reflexivity.
  - intros Hsome Hall Hgiven Hrefused.
    assert (Hsel : selectComponents (default false (all options)) components
                                    cs tcs aw = (Ok None, aw)).
    { unfold selectComponents. rewrite Hall.
      destruct components; [congruence|]. now rewrite Hrefused. }
    destruct tcs as [|tc tcs'].
    + destruct Hsome as [Habs|Hnext]; [congruence|]. rewrite Hnext. cbn [negb].
      unfold abind. now rewrite Hsel.
    + unfold abind. now rewrite Hsel.
Qed.

End ActionProperties.

(** * The further properties on the sample collaborators *)

Lemma peer_candidates_in_entry_order_witness :
  map package [Sample.reactPeer; Sample.framerPeer]
  = keepFirst (List.filter (fun p => negb (missing Sample.installed p))
                           (map fst Sample.reactEntries)).
Proof.
  apply (peer_candidates_in_entry_order "@nextui-org/react" Sample.installed
           None Sample.reactEntries Sample.world0 Sample.world0);
    vm_compute; reflexivity.
Defined.

Lemma comparison_failure_aborts_witness :
  getPackagePeerDep "bar" {[ "react" := "^18.2.0"; "baz" := "latest" ]}
                    (Some [("react", ">=18"); ("baz", "^3.0.0"); ("qux", "1")])
                    Sample.world0
  = (Throw (Thrown "Invalid argument not valid semver"), Sample.world0).
Proof.
  apply (comparison_failure_aborts
           "bar" {[ "react" := "^18.2.0"; "baz" := "latest" ]}
           (Some [("react", ">=18"); ("baz", "^3.0.0"); ("qux", "1")])
           [("react", ">=18")] [("qux", "1")] "baz" "^3.0.0" "latest"
           (Thrown "Invalid argument not valid semver")
           Sample.world0 Sample.world0 [Sample.reactPeer]).
  - reflexivity.
  - vm_compute. reflexivity.
  - intros [Hp|[]]. discriminate.
  - vm_compute. reflexivity.
  - vm_compute. reflexivity.
Defined.

Lemma stale_rows_line_up_witness :
  String.length
    (staleRowLead
       (fst (measureOptions (mkOptionMaxLen 0 0 0)
                            [Sample.reactPeer; Sample.tailwindPeer]))
       (normalizeVersion Sample.tailwindPeer))
  = 11 + 14 + 7.
Proof.
  etransitivity.
  - apply (stale_rows_line_up [Sample.reactPeer; Sample.tailwindPeer]
                              Sample.tailwindPeer).
    + right. left. reflexivity.
    + vm_compute. lia.
  - vm_compute. reflexivity.
Defined.

Lemma upgrade_multi_throws_witness :
  exists e,
    fst (upgrade (mkUpgrade false Sample.installed
                            [Sample.button;
                             mkUpgradeOption "@nextui-org/card" "2.0.0" "2.0.1"
                                             false "" None])
                 Sample.world0) = Throw e.
Proof.
  apply (upgrade_multi_throws
           (mkUpgrade false Sample.installed
                      [Sample.button;
                       mkUpgradeOption "@nextui-org/card" "2.0.0" "2.0.1"
                                       false "" None])
           Sample.world0 eq_refl).
  exists (Thrown "Command failed"),
         (mkUpgradeOption "@nextui-org/card" "2.0.0" "2.0.1" false "" None).
  split; [right; left; reflexivity | vm_compute; reflexivity].
Defined.

Lemma upgrade_multi_nothing_to_install_witness :
  fst (upgrade (mkUpgrade false Sample.installed
                          [mkUpgradeOption "@nextui-org/theme" "2.1.0" "2.1.0"
                                           true "" (Some [("react", ">=18")])])
               Sample.world0) = Ok [].
Proof.
  apply (upgrade_multi_nothing_to_install
           (mkUpgrade false Sample.installed
                      [mkUpgradeOption "@nextui-org/theme" "2.1.0" "2.1.0"
                                       true "" (Some [("react", ">=18")])])
           [[Sample.reactPeer]] Sample.world0 eq_refl).
  - repeat constructor.
  - split; repeat constructor.
Defined.

Lemma upgradeAction_returns_early_witness :
  upgradeAction (env := SampleAction.collaborators)
                (actionEnv := SampleAction.actionCollaborators)
                [] (SampleAction.atPath "empty/package.json") SampleAction.start
  = (Ok Returned,
     mkActionWorld
       Sample.world0
       [LoggedPrefix "error"
          "No NextUI components detected in your package.json at: empty/package.json"])
  /\ upgradeAction (env := SampleAction.collaborators)
                   (actionEnv := SampleAction.actionCollaborators)
                   ["card"] SampleAction.noOptions SampleAction.start
     = (Ok Returned, SampleAction.start).
Proof.
  split.
  - apply (proj1 (upgradeAction_returns_early
                    (env := SampleAction.collaborators)
                    (actionEnv := SampleAction.actionCollaborators)
                    [] (SampleAction.atPath "empty/package.json")
                    SampleAction.start ∅ [] [] eq_refl eq_refl));
      reflexivity.
  - apply (proj2 (upgradeAction_returns_early
                    (env := SampleAction.collaborators)
                    (actionEnv := SampleAction.actionCollaborators)
                    ["card"] SampleAction.noOptions SampleAction.start
                    SampleAction.componentProject
                    [SampleAction.buttonComponent]
                    [mkUpgradeOption "@nextui-org/button" "^2.0.1" "2.0.2"
                                     false "^" (Some Sample.explicitPeers)]
                    eq_refl eq_refl)).
    + left. discriminate.
    + reflexivity.
    + discriminate.
    + reflexivity.
Defined.

Lemma install_runs_whatever_the_answers_witness :
  fst (concludeUpgrade (env := SampleAction.collaborators)
                       (actionEnv := SampleAction.actionCollaborators)
                       [Sample.button; Sample.tailwindPeer] SampleAction.start)
  = Ok (ProcessExit 0)
  /\ In (Executed "pnpm add @nextui-org/button@2.0.2 tailwindcss@3.4.0")
        (events (snd (concludeUpgrade
                        (env := SampleAction.collaborators)
                        (actionEnv := SampleAction.actionCollaborators)
                        [Sample.button; Sample.tailwindPeer]
                        SampleAction.start))).
Proof.
  destruct (install_runs_whatever_the_answers
              (env := SampleAction.collaborators)
              (actionEnv := SampleAction.actionCollaborators)
              [Sample.button; Sample.tailwindPeer] SampleAction.start)
    as (Hrun & _ & _); [discriminate|].
  rewrite Hrun. split; vm_compute; [reflexivity | tauto].
Defined.

Lemma components_classified_witness :
  exists z,
    Sample.compareDotted "^2.0.1" "2.0.2" = Ok z
    /\ (false = true <-> (0 <= z)%Z).
Proof.
  pose proof (components_classified
                (env := SampleAction.collaborators)
                (actionEnv := SampleAction.actionCollaborators)
                [SampleAction.buttonComponent]
                [mkUpgradeOption "@nextui-org/button" "^2.0.1" "2.0.2"
                                 false "^" (Some Sample.explicitPeers)]
                eq_refl) as Hall.
  apply Forall2_cons_1 in Hall as [(_ & _ & _ & _ & _ & _ & Hz) _].
  exact Hz.
Defined.

Lemma all_selects_every_component_witness :
  upgradeAction (env := SampleAction.collaborators)
                (actionEnv := SampleAction.actionCollaborators)
                ["card"]
                (mkUpgradeActionOptions None (Some true) None None None)
                SampleAction.start
  = (result <~ liftHelper
                 (upgrade (env := SampleAction.collaborators)
                    (mkUpgrade false SampleAction.componentProject
                       [mkUpgradeOption "@nextui-org/button" "^2.0.1" "2.0.2"
                                        false "^" (Some Sample.explicitPeers)])) ;;
     concludeUpgrade (env := SampleAction.collaborators)
                     (actionEnv := SampleAction.actionCollaborators) result)
      SampleAction.start.
Proof.
  apply (all_selects_every_component
           (env := SampleAction.collaborators)
           (actionEnv := SampleAction.actionCollaborators)
           ["card"] (mkUpgradeActionOptions None (Some true) None None None)
           SampleAction.start SampleAction.componentProject
           [SampleAction.buttonComponent]
           [mkUpgradeOption "@nextui-org/button" "^2.0.1" "2.0.2"
                            false "^" (Some Sample.explicitPeers)]).
  - reflexivity.
  - reflexivity.
  - left. discriminate.
  - reflexivity.
  - intros c [<-|[]]. reflexivity.
Defined.

Lemma latest_umbrella_installs_nothing_witness :
  exists asked w',
    upgradeAction (env := SampleAction.collaborators)
                  (actionEnv := SampleAction.actionCollaborators)
                  [] (SampleAction.atPath "umbrella/package.json")
                  SampleAction.start
    = (Ok (ProcessExit 0),
       mkActionWorld w' (events SampleAction.start ++ asked ++ farewell))
    /\ (asked = [] \/ asked = [Asked "Select the components to upgrade"]).
Proof.
  apply (latest_umbrella_installs_nothing
           (env := SampleAction.collaborators)
           (actionEnv := SampleAction.actionCollaborators)
           [] (SampleAction.atPath "umbrella/package.json") SampleAction.start
           SampleAction.umbrellaProject [] [] 0
           [Sample.reactPeer; Sample.framerPeer] [Sample.tailwindPeer]).
  - reflexivity.
  - reflexivity.
  - vm_compute. reflexivity.
  - vm_compute. reflexivity.
  - lia.
  - vm_compute. reflexivity.
  - vm_compute. reflexivity.
  - right. left. reflexivity.
Defined.
